(** * file-commander: a watched command file driving file-system operations

    Shallow embedding of [src/app.js].  JavaScript strings are sequences of
    UTF-16 code units; asynchronous functions are terms of a small
    resumption monad whose [Await] nodes are the suspension points of the
    source; the [fs/promises] module is an abstract port, with an in-memory
    instance used for concrete runs. *)

From Stdlib Require Import String Ascii.
From stdpp Require Import base option list gmap.

Set Default Proof Using "Type".
Open Scope Z_scope.

(* ------------------------------------------------------------------------- *)
(** ** JavaScript strings *)

Module JsString.

(** A string is a list of UTF-16 code units. *)
Definition code_unit := N.
Definition jsstring := list N.

(** ASCII literals. *)
Definition lit (s : string) : jsstring :=
  map N_of_ascii (list_ascii_of_string s).

Definition BOM : N := 65279%N.  (* U+FEFF *)
Definition CR : N := 13%N.
Definition LF : N := 10%N.
Definition SLASH : N := 47%N.

(** The code units removed by [String.prototype.trim]: ECMAScript
    WhiteSpace and LineTerminator. *)
Definition isWhiteSpace (c : N) : bool :=
  ((9 <=? c) && (c <=? 13))%N
  || (c =? 32)%N || (c =? 160)%N || (c =? 5760)%N
  || ((8192 <=? c) && (c <=? 8202))%N
  || (c =? 8232)%N || (c =? 8233)%N || (c =? 8239)%N
  || (c =? 8287)%N || (c =? 12288)%N || (c =? 65279)%N.

Fixpoint trimStart (s : jsstring) : jsstring :=
  match s with
  | c :: s' => if isWhiteSpace c then trimStart s' else s
  | [] => []
  end.

Definition trimEnd (s : jsstring) : jsstring := rev (trimStart (rev s)).

(** [s.trim()] *)
Definition trim (s : jsstring) : jsstring := trimEnd (trimStart s).

(** [s.startsWith(p)] *)
Fixpoint startsWith (s p : jsstring) {struct p} : bool :=
  match p, s with
  | [], _ => true
  | _ :: _, [] => false
  | a :: p', b :: s' => (a =? b)%N && startsWith s' p'
  end.

Fixpoint indexOf_from (s p : jsstring) (i : Z) : Z :=
  if startsWith s p then i
  else match s with
       | [] => -1
       | _ :: s' => indexOf_from s' p (i + 1)
       end.

(** [s.indexOf(p)]: position of the first occurrence, [-1] when absent. *)
Definition indexOf (s p : jsstring) : Z := indexOf_from s p 0.

(** [s.substring(a)]: a negative start counts as 0, one past the end as
    the length. *)
Definition substring_from (s : jsstring) (a : Z) : jsstring :=
  drop (Z.to_nat a) s.

(** [s.substring(a, b)]: both indices clamped to [0, length], swapped
    when [a > b]. *)
Definition substring (s : jsstring) (a b : Z) : jsstring :=
  let n := Z.of_nat (length s) in
  let a' := Z.min (Z.max a 0) n in
  let b' := Z.min (Z.max b 0) n in
  let lo := Z.min a' b' in
  let hi := Z.max a' b' in
  take (Z.to_nat (hi - lo)) (drop (Z.to_nat lo) s).

(** [s.replace(/^\uFEFF/, empty)]: one leading U+FEFF is removed. *)
Definition stripBOM (s : jsstring) : jsstring :=
  match s with
  | c :: s' => if (c =? BOM)%N then s' else s
  | [] => []
  end.

(** [s.replace(/\r\n/g, "\n")] *)
Fixpoint replaceCRLF (s : jsstring) : jsstring :=
  match s with
  | c :: s' =>
      match s' with
      | d :: s'' =>
          if ((c =? CR) && (d =? LF))%N then LF :: replaceCRLF s''
          else c :: replaceCRLF s'
      | [] => [c]
      end
  | [] => []
  end.

(** Truthiness of a string: non-empty. *)
Definition truthy (s : jsstring) : bool :=
  match s with [] => false | _ => true end.

Definition str_eqb (a b : jsstring) : bool := bool_decide (a = b).

End JsString.
Import JsString.

(* ------------------------------------------------------------------------- *)
(** ** Node's [path] module (POSIX flavour), as far as the program uses it *)

Module Path.

Definition isSlash (c : N) : bool := (c =? SLASH)%N.

(** Split at every slash; the segments may be empty. *)
Fixpoint split_slash (s : jsstring) : list jsstring :=
  match s with
  | [] => [[]]
  | c :: s' =>
      match split_slash s' with
      | seg :: segs => if isSlash c then [] :: seg :: segs else (c :: seg) :: segs
      | [] => [[c]]
      end
  end.

Definition dot : jsstring := lit ".".
Definition dotdot : jsstring := lit "..".

(** [normalizeString]: [acc] holds the segments kept so far, last one
    first.  Empty and [.] segments vanish, [..] removes the segment before
    it, and at the top it is dropped unless [allowAboveRoot]. *)
Fixpoint normalizeSegs (allowAboveRoot : bool) (acc segs : list jsstring)
  : list jsstring :=
  match segs with
  | [] => rev acc
  | seg :: rest =>
      if str_eqb seg [] || str_eqb seg dot then
        normalizeSegs allowAboveRoot acc rest
      else if str_eqb seg dotdot then
        match acc with
        | top :: acc' =>
            if str_eqb top dotdot then
              normalizeSegs allowAboveRoot
                (if allowAboveRoot then dotdot :: acc else acc) rest
            else normalizeSegs allowAboveRoot acc' rest
        | [] =>
            normalizeSegs allowAboveRoot
              (if allowAboveRoot then [dotdot] else []) rest
        end
      else normalizeSegs allowAboveRoot (seg :: acc) rest
  end.

Fixpoint join_slash (segs : list jsstring) : jsstring :=
  match segs with
  | [] => []
  | [seg] => seg
  | seg :: rest => seg ++ SLASH :: join_slash rest
  end.

Definition isAbsolute (p : jsstring) : bool :=
  match p with c :: _ => isSlash c | [] => false end.

(** [path.resolve(p)] in a process whose working directory is
    [process_cwd]: an absolute [p] stands alone, a relative one is
    appended to the working directory, an empty one is skipped. *)
Definition resolve (process_cwd p : jsstring) : jsstring :=
  let joined :=
    if isAbsolute p then p ++ [SLASH]
    else if truthy p then process_cwd ++ SLASH :: p ++ [SLASH]
    else process_cwd ++ [SLASH] in
  let resolvedAbsolute := isAbsolute p || isAbsolute process_cwd in
  let body :=
    join_slash (normalizeSegs (negb resolvedAbsolute) [] (split_slash joined)) in
  if resolvedAbsolute then SLASH :: body
  else if truthy body then body else dot.

(** The segments of an absolute, normalised path. *)
Definition segments (p : jsstring) : list jsstring :=
  normalizeSegs false [] (split_slash p).

Fixpoint dropWhile (f : N -> bool) (s : jsstring) : jsstring :=
  match s with
  | c :: s' => if f c then dropWhile f s' else s
  | [] => []
  end.

(** [path.dirname(p)]: scanning from the right and never looking at the
    first code unit, skip trailing slashes, skip the last name, and cut
    before the slash found. *)
Definition dirname (p : jsstring) : jsstring :=
  match p with
  | [] => dot
  | c :: body =>
      let hasRoot := isSlash c in
      let r := dropWhile isSlash (rev body) in
      match dropWhile (fun x => negb (isSlash x)) r with
      | _ :: before =>
          if hasRoot && bool_decide (before = []) then [SLASH; SLASH]
          else c :: rev before
      | [] => if hasRoot then [SLASH] else dot
      end
  end.

End Path.

(* ------------------------------------------------------------------------- *)
(** ** Errors and path validation *)

(** What a [throw] or a rejected promise carries. *)
Inductive Err : Type :=
| EmptyPath                      (* Error("Empty path provided.") *)
| PathTraversal (rawPath : jsstring)
                                 (* Error("Path traversal detected: ...") *)
| IOError (code : string)        (* a failure of the file-system layer *)
| RangeError.                    (* RangeError("Invalid time value") *)

Section Validation.

(** [process.cwd()] *)
Variable process_cwd : jsstring.

(** [resolveSafePath]; [inl] is a thrown error. *)
Definition resolveSafePath (rawPath : jsstring) : Err + jsstring :=
  if negb (truthy rawPath) || negb (truthy (trim rawPath)) then inl EmptyPath
  else
    let resolved := Path.resolve process_cwd (trim rawPath) in
    let cwd := Path.resolve process_cwd (lit ".") in
    if negb (startsWith resolved cwd) then inl (PathTraversal rawPath)
    else inr resolved.

(** The containment the documentation of [resolveSafePath] asks for:
    the resolved path is the working directory or lies below it, segment
    by segment. *)
Definition within (root p : jsstring) : Prop :=
  Path.segments root `prefix_of` Path.segments p.

End Validation.

(* ------------------------------------------------------------------------- *)
(** ** Log sink *)

(** [logger.info], [logger.success], [logger.warn], [logger.error], and a
    bare [console.log]. *)
Inductive Severity : Type := INFO | OK | WARN | ERROR | PLAIN.

(** What [fs.stat] reports and [fileInfo] prints; times in milliseconds. *)
Record Stats : Type := mkStats {
  st_isDirectory : bool;
  st_size : N;
  st_birthtime : Z;
  st_mtime : Z;
  st_atime : Z
}.

(** An entry of [fs.readdir(..., {withFileTypes: true})]. *)
Record Dirent : Type := mkDirent {
  de_name : jsstring;
  de_isDirectory : bool
}.

(** The texts the program prints, with the values interpolated in them. *)
Inductive Msg : Type :=
| FileAlreadyExists (filePath : jsstring)
| FileCreated (filePath : jsstring)
| CreateFileFailed (rawPath : jsstring)
| FileNotFoundCannotDelete (filePath : jsstring)
| FileDeleted (filePath : jsstring)
| DeleteFileFailed (rawPath : jsstring)
| SourceFileNotFound (path : jsstring)
| DestinationAlreadyExists (newPath : jsstring)
| FileRenamed (oldPath newPath : jsstring)
| RenameFileFailed (rawOldPath rawNewPath : jsstring)
| ContentAppendedTo (filePath : jsstring)
| AddToFileFailed (rawPath : jsstring)
| FileNotFound (filePath : jsstring)
| ContentsOf (path : jsstring)
| ReadFileFailed (rawPath : jsstring)
| FileCopied (src dest : jsstring)
| CopyFileFailed (rawSrc rawDest : jsstring)
| ListDirectoryFailed (rawPath : jsstring)
| PathNotFound (filePath : jsstring)
| InfoFor (filePath : jsstring)
| FileInfoFailed (rawPath : jsstring)
| ReceivedEmptyCommand
| CommandReceived (command : jsstring)
| RenameSyntax
| AddToFileSyntax
| CopyFileSyntax
| UnknownCommand (command : jsstring)
| AvailableCommands
| UnexpectedError
| Rule                              (* sixty box-drawing dashes *)
| Text (content : jsstring)
| EmptyDirectory
| DirEntry (isDir : bool) (name : jsstring)
| InfoType (isDir : bool)
| InfoSize (size : N)
| InfoCreated (t : Z)
| InfoModified (t : Z)
| InfoAccessed (t : Z)
| CommandBullet (phrase : jsstring).

Record LogLine : Type := mkLine {
  severity : Severity;
  message : Msg;
  cause : option Err
}.

(* ------------------------------------------------------------------------- *)
(** ** Program memory and the file-system port *)

(** The variables of the watcher closure, and everything printed so far. *)
Record Mem : Type := mkMem {
  processing : bool;
  lastContent : jsstring;
  console : list LogLine
}.

Definition set_processing (b : bool) (m : Mem) : Mem :=
  mkMem b (lastContent m) (console m).
Definition set_lastContent (s : jsstring) (m : Mem) : Mem :=
  mkMem (processing m) s (console m).
Definition print (l : LogLine) (m : Mem) : Mem :=
  mkMem (processing m) (lastContent m) (console m ++ [l]).

Inductive Flag : Type := FlagR | FlagW | FlagA.

(** The calls of [fs/promises] the program makes.  Each takes the state of
    the file system to a result or a rejection and a new state. *)
Record FsPort (FsState Handle : Type) : Type := mkPort {
  fs_access : jsstring -> FsState -> (Err + unit) * FsState;
  fs_mkdir_recursive : jsstring -> FsState -> (Err + unit) * FsState;
  fs_open : jsstring -> Flag -> FsState -> (Err + Handle) * FsState;
  handle_close : Handle -> FsState -> (Err + unit) * FsState;
  handle_write : Handle -> jsstring -> FsState -> (Err + unit) * FsState;
  handle_stat : Handle -> FsState -> (Err + Stats) * FsState;
  handle_read : Handle -> N -> FsState -> (Err + list Byte.byte) * FsState;
  fs_unlink : jsstring -> FsState -> (Err + unit) * FsState;
  fs_rename : jsstring -> jsstring -> FsState -> (Err + unit) * FsState;
  fs_readFile : jsstring -> FsState -> (Err + jsstring) * FsState;
  fs_copyFile : jsstring -> jsstring -> FsState -> (Err + unit) * FsState;
  fs_readdir : jsstring -> FsState -> (Err + list Dirent) * FsState;
  fs_stat : jsstring -> FsState -> (Err + Stats) * FsState
}.
Arguments fs_access {_ _}.
Arguments fs_mkdir_recursive {_ _}.
Arguments fs_open {_ _}.
Arguments handle_close {_ _}.
Arguments handle_write {_ _}.
Arguments handle_stat {_ _}.
Arguments handle_read {_ _}.
Arguments fs_unlink {_ _}.
Arguments fs_rename {_ _}.
Arguments fs_readFile {_ _}.
Arguments fs_copyFile {_ _}.
Arguments fs_readdir {_ _}.
Arguments fs_stat {_ _}.

(* ------------------------------------------------------------------------- *)
(** ** Asynchronous functions *)

(** An [async] function body: it returns, throws, touches the program
    memory synchronously, or awaits a file-system call.  [Await] is a
    suspension point; its continuation receives the result or the
    rejection. *)
Inductive Async (FsState A : Type) : Type :=
| Ret (a : A)
| Throw (e : Err)
| Sync {X : Type} (f : Mem -> X * Mem) (k : X -> Async FsState A)
| Await {X : Type} (io : FsState -> (Err + X) * FsState)
        (k : Err + X -> Async FsState A).
Arguments Ret {_ _}.
Arguments Throw {_ _}.
Arguments Sync {_ _ _}.
Arguments Await {_ _ _}.

Section Combinators.
Context {FsState : Type}.
#[local] Abbreviation Async := (Async FsState).

Fixpoint bind {A B} (t : Async A) (k : A -> Async B) : Async B :=
  match t with
  | Ret a => k a
  | Throw e => Throw e
  | Sync f c => Sync f (fun x => bind (c x) k)
  | Await io c => Await io (fun r => bind (c r) k)
  end.

(** [try { t } catch (err) { h err }] *)
Fixpoint try_catch {A} (t : Async A) (h : Err -> Async A) : Async A :=
  match t with
  | Ret a => Ret a
  | Throw e => h e
  | Sync f c => Sync f (fun x => try_catch (c x) h)
  | Await io c => Await io (fun r => try_catch (c r) h)
  end.

(** [try { t } finally { f }]: [f] runs however [t] ends, and the end of
    [t] stands unless [f] itself throws. *)
Fixpoint finally_ {A} (t : Async A) (f : Async unit) : Async A :=
  match t with
  | Ret a => bind f (fun _ => Ret a)
  | Throw e => bind f (fun _ => Throw e)
  | Sync g c => Sync g (fun x => finally_ (c x) f)
  | Await io c => Await io (fun r => finally_ (c r) f)
  end.

(** A synchronous call that may throw. *)
Definition lift {A} (r : Err + A) : Async A :=
  match r with inl e => Throw e | inr a => Ret a end.

(** [await call]: a rejection is thrown where the function resumes. *)
Definition await {X} (io : FsState -> (Err + X) * FsState) : Async X :=
  Await io lift.

(** [await f(...)] for an [async] function [f]: the caller is suspended
    once more when the promise of [f] settles, and resumes with its result
    or its rejection. *)
Fixpoint awaited {A} (t : Async A) : Async A :=
  match t with
  | Ret a => Await (fun s => (inr a, s)) lift
  | Throw e => Await (fun s => (inl e, s)) lift
  | Sync f c => Sync f (fun x => awaited (c x))
  | Await io c => Await io (fun r => awaited (c r))
  end.

Definition read_mem {X} (f : Mem -> X) : Async X :=
  Sync (fun m => (f m, m)) Ret.
Definition write_mem (f : Mem -> Mem) : Async unit :=
  Sync (fun m => (tt, f m)) Ret.

Definition logger_info (msg : Msg) : Async unit :=
  write_mem (print (mkLine INFO msg None)).
Definition logger_success (msg : Msg) : Async unit :=
  write_mem (print (mkLine OK msg None)).
Definition logger_warn (msg : Msg) : Async unit :=
  write_mem (print (mkLine WARN msg None)).
Definition logger_error (msg : Msg) (err : option Err) : Async unit :=
  write_mem (print (mkLine ERROR msg err)).
Definition console_log (msg : Msg) : Async unit :=
  write_mem (print (mkLine PLAIN msg None)).

(** Running to completion with nothing else interleaved: every awaited
    call is performed when it is reached. *)
Fixpoint run {A} (t : Async A) (m : Mem) (s : FsState)
  : (Err + A) * (Mem * FsState) :=
  match t with
  | Ret a => (inr a, (m, s))
  | Throw e => (inl e, (m, s))
  | Sync f k => run (k (f m).1) (f m).2 s
  | Await io k => run (k (io s).1) m (io s).2
  end.

End Combinators.

#[global] Instance async_ret {FsState} : MRet (Async FsState) :=
  fun _ a => Ret a.
#[global] Instance async_bind {FsState} : MBind (Async FsState) :=
  fun _ _ k t => bind t k.

(* ------------------------------------------------------------------------- *)
(** ** The program *)

Module Commands.
Definition CREATE_FILE : jsstring := lit "create a file".
Definition DELETE_FILE : jsstring := lit "delete the file".
Definition RENAME_FILE : jsstring := lit "rename the file".
Definition ADD_TO_FILE : jsstring := lit "add to the file".
Definition READ_FILE : jsstring := lit "read the file".
Definition COPY_FILE : jsstring := lit "copy the file".
Definition LIST_DIR : jsstring := lit "list the directory".
Definition FILE_INFO : jsstring := lit "file info".

(** [Object.values(COMMANDS)] *)
Definition values : list jsstring :=
  [CREATE_FILE; DELETE_FILE; RENAME_FILE; ADD_TO_FILE;
   READ_FILE; COPY_FILE; LIST_DIR; FILE_INFO].
End Commands.

Definition len (s : jsstring) : Z := Z.of_nat (length s).

(** The largest time value of a [Date], in milliseconds either side of
    the epoch; a [Date] built from anything beyond it is invalid. *)
Definition MAX_TIME : Z := 8640000000000000.

(** [Date.prototype.toISOString]: throws on an invalid [Date].  The text
    is kept as the time it renders. *)
Definition toISOString (t : Z) : Err + Z :=
  if Z.abs t <=? MAX_TIME then inr t else inl RangeError.

Section Program.
Context {FsState Handle : Type}.
Variable port : FsPort FsState Handle.

(** [process.cwd()], the handle of the opened command file, and
    [Buffer.prototype.toString("utf-8")]. *)
Variable process_cwd : jsstring.
Variable file : Handle.
Variable utf8_decode : list Byte.byte -> jsstring.

#[local] Abbreviation Async := (Async FsState).

Definition pathExists (filePath : jsstring) : Async bool :=
  try_catch (_ ← await (fs_access port filePath); Ret true)
            (fun _ => Ret false).

Definition createFile_body (rawPath : jsstring) : Async unit :=
  filePath ← lift (resolveSafePath process_cwd rawPath);
  found ← awaited (pathExists filePath);
  if found : bool then logger_warn (FileAlreadyExists filePath)
  else
    _ ← await (fs_mkdir_recursive port (Path.dirname filePath));
    handle ← await (fs_open port filePath FlagW);
    _ ← await (handle_close port handle);
    logger_success (FileCreated filePath).

Definition createFile (rawPath : jsstring) : Async unit :=
  try_catch (createFile_body rawPath)
    (fun err => logger_error (CreateFileFailed rawPath) (Some err)).

Definition deleteFile_body (rawPath : jsstring) : Async unit :=
  filePath ← lift (resolveSafePath process_cwd rawPath);
  found ← awaited (pathExists filePath);
  if negb found then logger_warn (FileNotFoundCannotDelete filePath)
  else
    _ ← await (fs_unlink port filePath);
    logger_success (FileDeleted filePath).

Definition deleteFile (rawPath : jsstring) : Async unit :=
  try_catch (deleteFile_body rawPath)
    (fun err => logger_error (DeleteFileFailed rawPath) (Some err)).

Definition renameFile_body (rawOldPath rawNewPath : jsstring) : Async unit :=
  oldPath ← lift (resolveSafePath process_cwd rawOldPath);
  newPath ← lift (resolveSafePath process_cwd rawNewPath);
  oldFound ← awaited (pathExists oldPath);
  if negb oldFound then logger_warn (SourceFileNotFound oldPath)
  else
    newFound ← awaited (pathExists newPath);
    if newFound : bool then logger_warn (DestinationAlreadyExists newPath)
    else
      _ ← await (fs_mkdir_recursive port (Path.dirname newPath));
      _ ← await (fs_rename port oldPath newPath);
      logger_success (FileRenamed oldPath newPath).

Definition renameFile (rawOldPath rawNewPath : jsstring) : Async unit :=
  try_catch (renameFile_body rawOldPath rawNewPath)
    (fun err =>
       logger_error (RenameFileFailed rawOldPath rawNewPath) (Some err)).

Definition addToFile_body (rawPath content : jsstring) : Async unit :=
  filePath ← lift (resolveSafePath process_cwd rawPath);
  _ ← await (fs_mkdir_recursive port (Path.dirname filePath));
  handle ← await (fs_open port filePath FlagA);
  _ ← await (handle_write port handle content);
  _ ← await (handle_close port handle);
  logger_success (ContentAppendedTo filePath).

Definition addToFile (rawPath content : jsstring) : Async unit :=
  try_catch (addToFile_body rawPath content)
    (fun err => logger_error (AddToFileFailed rawPath) (Some err)).

Definition readFile_body (rawPath : jsstring) : Async unit :=
  filePath ← lift (resolveSafePath process_cwd rawPath);
  found ← awaited (pathExists filePath);
  if negb found then logger_warn (FileNotFound filePath)
  else
    content ← await (fs_readFile port filePath);
    _ ← logger_success (ContentsOf filePath);
    _ ← console_log Rule;
    _ ← console_log
          (Text (if truthy content then content else lit "(empty file)"));
    console_log Rule.

Definition readFile (rawPath : jsstring) : Async unit :=
  try_catch (readFile_body rawPath)
    (fun err => logger_error (ReadFileFailed rawPath) (Some err)).

Definition copyFile_body (rawSrc rawDest : jsstring) : Async unit :=
  src ← lift (resolveSafePath process_cwd rawSrc);
  dest ← lift (resolveSafePath process_cwd rawDest);
  found ← awaited (pathExists src);
  if negb found then logger_warn (SourceFileNotFound src)
  else
    _ ← await (fs_mkdir_recursive port (Path.dirname dest));
    _ ← await (fs_copyFile port src dest);
    logger_success (FileCopied src dest).

Definition copyFile (rawSrc rawDest : jsstring) : Async unit :=
  try_catch (copyFile_body rawSrc rawDest)
    (fun err => logger_error (CopyFileFailed rawSrc rawDest) (Some err)).

(** [for (const entry of entries) console.log(...)] *)
Fixpoint print_entries (entries : list Dirent) : Async unit :=
  match entries with
  | [] => Ret tt
  | entry :: rest =>
      _ ← console_log (DirEntry (de_isDirectory entry) (de_name entry));
      print_entries rest
  end.

Definition listDirectory_body (rawPath : jsstring) : Async unit :=
  dirPath ← lift (resolveSafePath process_cwd
                    (if truthy rawPath then rawPath else lit "."));
  entries ← await (fs_readdir port dirPath);
  _ ← logger_success (ContentsOf dirPath);
  _ ← console_log Rule;
  _ ← (if (length entries =? 0)%nat then console_log EmptyDirectory
       else print_entries entries);
  console_log Rule.

Definition listDirectory (rawPath : jsstring) : Async unit :=
  try_catch (listDirectory_body rawPath)
    (fun err => logger_error (ListDirectoryFailed rawPath) (Some err)).

Definition fileInfo_body (rawPath : jsstring) : Async unit :=
  filePath ← lift (resolveSafePath process_cwd rawPath);
  found ← awaited (pathExists filePath);
  if negb found then logger_warn (PathNotFound filePath)
  else
    stats ← await (fs_stat port filePath);
    _ ← logger_success (InfoFor filePath);
    _ ← console_log Rule;
    _ ← console_log (InfoType (st_isDirectory stats));
    _ ← console_log (InfoSize (st_size stats));
    created ← lift (toISOString (st_birthtime stats));
    _ ← console_log (InfoCreated created);
    modified ← lift (toISOString (st_mtime stats));
    _ ← console_log (InfoModified modified);
    accessed ← lift (toISOString (st_atime stats));
    _ ← console_log (InfoAccessed accessed);
    console_log Rule.

Definition fileInfo (rawPath : jsstring) : Async unit :=
  try_catch (fileInfo_body rawPath)
    (fun err => logger_error (FileInfoFailed rawPath) (Some err)).

(** [Object.values(COMMANDS).forEach((c) => console.log(...))] *)
Fixpoint print_commands (cs : list jsstring) : Async unit :=
  match cs with
  | [] => Ret tt
  | c :: rest => _ ← console_log (CommandBullet c); print_commands rest
  end.

Definition TO : jsstring := lit " to ".
Definition MARKER : jsstring := lit " this content: ".

(** The text the parser works on. *)
Definition normalize (raw : jsstring) : jsstring :=
  replaceCRLF (trim (stripBOM raw)).

(** Nothing but white space. *)
Definition blank (s : jsstring) : Prop :=
  Forall (fun c => isWhiteSpace c = true) s.

(** [first_split sep rest pre post]: [rest] is [pre], [sep], [post], and
    [sep] occurs nowhere in [rest] before that place. *)
Definition first_split (sep rest pre post : jsstring) : Prop :=
  rest = pre ++ sep ++ post /\
  forall a b, rest = a ++ sep ++ b -> (length pre <= length a)%nat.

(** The normalisation in the order the specification words it: strip a
    leading byte-order mark, turn CRLF into LF, trim. *)
Definition normalize_spec (raw : jsstring) : jsstring :=
  trim (replaceCRLF (stripBOM raw)).

Definition parseAndExecute (raw : jsstring) : Async unit :=
  let command := normalize raw in
  if negb (truthy command) then logger_warn ReceivedEmptyCommand
  else
    _ ← logger_info (CommandReceived command);
    if startsWith command Commands.CREATE_FILE then
      let filePath := trim (substring_from command (len Commands.CREATE_FILE)) in
      awaited (createFile filePath)
    else if startsWith command Commands.DELETE_FILE then
      let filePath := trim (substring_from command (len Commands.DELETE_FILE)) in
      awaited (deleteFile filePath)
    else if startsWith command Commands.RENAME_FILE then
      let rest := trim (substring_from command (len Commands.RENAME_FILE)) in
      let toIdx := indexOf rest TO in
      if toIdx =? -1 then logger_error RenameSyntax None
      else
        let oldPath := trim (substring rest 0 toIdx) in
        let newPath := trim (substring_from rest (toIdx + 4)) in
        awaited (renameFile oldPath newPath)
    else if startsWith command Commands.ADD_TO_FILE then
      let rest := trim (substring_from command (len Commands.ADD_TO_FILE)) in
      let markerIdx := indexOf rest MARKER in
      if markerIdx =? -1 then logger_error AddToFileSyntax None
      else
        let filePath := trim (substring rest 0 markerIdx) in
        let content := substring_from rest (markerIdx + len MARKER) in
        awaited (addToFile filePath content)
    else if startsWith command Commands.READ_FILE then
      let filePath := trim (substring_from command (len Commands.READ_FILE)) in
      awaited (readFile filePath)
    else if startsWith command Commands.COPY_FILE then
      let rest := trim (substring_from command (len Commands.COPY_FILE)) in
      let toIdx := indexOf rest TO in
      if toIdx =? -1 then logger_error CopyFileSyntax None
      else
        let src := trim (substring rest 0 toIdx) in
        let dest := trim (substring_from rest (toIdx + 4)) in
        awaited (copyFile src dest)
    else if startsWith command Commands.LIST_DIR then
      let arg := trim (substring_from command (len Commands.LIST_DIR)) in
      let dirPath := if truthy arg then arg else lit "." in
      awaited (listDirectory dirPath)
    else if startsWith command Commands.FILE_INFO then
      let filePath := trim (substring_from command (len Commands.FILE_INFO)) in
      awaited (fileInfo filePath)
    else
      _ ← logger_warn (UnknownCommand command);
      _ ← logger_info AvailableCommands;
      print_commands Commands.values.

(** The part of the ["change"] listener inside [try]. *)
Definition onChange_body : Async unit :=
  stats ← await (handle_stat port file);
  let size := st_size stats in
  if (size =? 0)%N then write_mem (set_processing false)
  else
    buffer ← await (handle_read port file size);
    let content := utf8_decode buffer in
    last ← read_mem lastContent;
    if str_eqb content last then write_mem (set_processing false)
    else
      _ ← write_mem (set_lastContent content);
      awaited (parseAndExecute content).

(** The cycle a notification starts once the flag is taken. *)
Definition onChange_cycle : Async unit :=
  finally_
    (try_catch onChange_body
       (fun err => logger_error UnexpectedError (Some err)))
    (write_mem (set_processing false)).

(** [file.on("change", async () => { ... })] *)
Definition onChange : Async unit :=
  busy ← read_mem processing;
  if busy : bool then Ret tt
  else
    _ ← write_mem (set_processing true);
    onChange_cycle.

End Program.

(* ------------------------------------------------------------------------- *)
(** ** The event loop

    One listener invocation runs until it awaits; the promise it awaits
    settles later, and other work may run in between. *)

Inductive Status (FsState A : Type) : Type :=
| Finished (r : Err + A)
| Blocked {X : Type} (io : FsState -> (Err + X) * FsState)
          (k : Err + X -> Async FsState A).
Arguments Finished {_ _}.
Arguments Blocked {_ _ _}.

(** A listener invocation suspended at an [await]. *)
Inductive Task (FsState : Type) : Type :=
| mkTask {X : Type} (io : FsState -> (Err + X) * FsState)
         (k : Err + X -> Async FsState unit).
Arguments mkTask {_ _}.

Record Sys (FsState : Type) : Type := mkSys {
  sys_mem : Mem;
  sys_fs : FsState;
  sys_tasks : list (Task FsState);     (* the cycles in flight *)
  sys_unhandled : list Err             (* rejections nobody caught *)
}.
Arguments mkSys {_}.
Arguments sys_mem {_}.
Arguments sys_fs {_}.
Arguments sys_tasks {_}.
Arguments sys_unhandled {_}.

Inductive Event (FsState : Type) : Type :=
| Watch (isChange : bool)          (* the watcher yields an event *)
| Settle (i : nat)                 (* the call task [i] awaits completes *)
| Outside (g : FsState -> FsState). (* someone else changes the disk *)
Arguments Watch {_}.
Arguments Settle {_}.
Arguments Outside {_}.

Section EventLoop.
Context {FsState Handle : Type}.
Variable port : FsPort FsState Handle.
Variable process_cwd : jsstring.
Variable file : Handle.
Variable utf8_decode : list Byte.byte -> jsstring.

(** Run the synchronous stretch up to the next suspension point. *)
Fixpoint advance {A} (t : Async FsState A) (m : Mem)
  : Status FsState A * Mem :=
  match t with
  | Ret a => (Finished (inr a), m)
  | Throw e => (Finished (inl e), m)
  | Sync f k => advance (k (f m).1) (f m).2
  | Await io k => (Blocked io k, m)
  end.

Definition park (st : Status FsState unit * Mem) (s : FsState)
    (others : list (Task FsState)) (unhandled : list Err) : Sys FsState :=
  match st.1 with
  | Finished (inr _) => mkSys st.2 s others unhandled
  | Finished (inl e) => mkSys st.2 s others (unhandled ++ [e])
  | Blocked io k => mkSys st.2 s (others ++ [mkTask io k]) unhandled
  end.

(** [for await (const event of watcher)
       if (event.eventType === "change") file.emit("change")],
    one event at a time, interleaved with the completion of awaited calls. *)
Definition step (ev : Event FsState) (σ : Sys FsState) : Sys FsState :=
  match ev with
  | Watch true =>
      park (advance (onChange port process_cwd file utf8_decode) (sys_mem σ))
           (sys_fs σ) (sys_tasks σ) (sys_unhandled σ)
  | Watch false => σ
  | Settle i =>
      match sys_tasks σ !! i with
      | Some (mkTask io k) =>
          park (advance (k (io (sys_fs σ)).1) (sys_mem σ))
               (io (sys_fs σ)).2 (delete i (sys_tasks σ)) (sys_unhandled σ)
      | None => σ
      end
  | Outside g =>
      mkSys (sys_mem σ) (g (sys_fs σ)) (sys_tasks σ) (sys_unhandled σ)
  end.

Definition exec (evs : list (Event FsState)) (σ : Sys FsState) : Sys FsState :=
  foldl (fun σ ev => step ev σ) σ evs.

(** The state in which the watcher starts: [processing = false],
    [lastContent = ""]. *)
Definition boot (printed : list LogLine) (s : FsState) : Sys FsState :=
  mkSys (mkMem false [] printed) s [] [].

(** [holding Q t m]: started in memory [m], [t] has the flag up at each of
    its suspension points, whatever the memory it resumes in as long as
    the flag is still up there, and ends in [Q]. *)
Fixpoint holding {A} (Q : Err + A -> Mem -> Prop) (t : Async FsState A)
    (m : Mem) : Prop :=
  match t with
  | Ret a => Q (inr a) m
  | Throw e => Q (inl e) m
  | Sync f k => holding Q (k (f m).1) (f m).2
  | Await io k =>
      processing m = true /\
      forall r m', processing m' = true -> holding Q (k r) m'
  end.

(** [quiet t]: [t] assigns neither [processing] nor [lastContent]. *)
Fixpoint quiet {A} (t : Async FsState A) : Prop :=
  match t with
  | Ret _ | Throw _ => True
  | Sync f k =>
      forall m, processing (f m).2 = processing m /\
                lastContent (f m).2 = lastContent m /\
                quiet (k (f m).1)
  | Await io k => forall r, quiet (k r)
  end.

(** [nothrow t]: run to completion, [t] returns normally. *)
Definition nothrow {A} (t : Async FsState A) : Prop :=
  forall m s, exists a w, run t m s = (inr a, w).

(** [reports t body msg]: [t] is [body] with its failure caught and
    printed as an error line that carries the cause. *)
Definition reports (t body : Async FsState unit) (msg : Msg) : Prop :=
  forall m s,
    run t m s =
    match run body m s with
    | (inl e, w) => (inr tt, (print (mkLine ERROR msg (Some e)) w.1, w.2))
    | (inr a, w) => (inr a, w)
    end.

Definition returned {A} (r : Err + A) : Prop :=
  match r with inr _ => True | inl _ => False end.

(** A suspended cycle that will release the flag. *)
Definition releasing (t : Task FsState) : Prop :=
  match t with
  | mkTask io k =>
      forall r m, processing m = true ->
        holding (fun r' m' => returned r' /\ processing m' = false) (k r) m
  end.

(** The states of the event loop with the single-flight discipline: nothing
    unhandled, and either the flag is down and no cycle is in flight, or
    the flag is up and exactly one cycle is, which will release it. *)
Definition single_flight (σ : Sys FsState) : Prop :=
  sys_unhandled σ = [] /\
  ((processing (sys_mem σ) = false /\ sys_tasks σ = []) \/
   (processing (sys_mem σ) = true /\
    exists t, sys_tasks σ = [t] /\ releasing t)).

End EventLoop.

(* ------------------------------------------------------------------------- *)
(** ** An in-memory file system behind the port

    Keys are absolute, normalised paths.  Regular files hold text.  The
    watched command file is kept apart, as bytes, and is reached through
    its own handle.  A path in [denied] cannot be examined: [access] fails
    on it whether or not it exists. *)

Module MemFs.

Inductive Node : Type :=
| File (content : jsstring)
| Dir.

Record State : Type := mkState {
  nodes : gmap jsstring Node;
  denied : gset jsstring;
  command : list Byte.byte
}.

Inductive Handle : Type :=
| CommandFile
| Opened (p : jsstring).

Definition with_nodes (s : State) (n : gmap jsstring Node) : State :=
  mkState n (denied s) (command s).

Definition ENOENT : Err := IOError "ENOENT".
Definition EACCES : Err := IOError "EACCES".
Definition EISDIR : Err := IOError "EISDIR".
Definition ENOTDIR : Err := IOError "ENOTDIR".
Definition EEXIST : Err := IOError "EEXIST".
Definition EBADF : Err := IOError "EBADF".
Definition ENOTSUP : Err := IOError "ENOTSUP".

Definition root : jsstring := [SLASH].

(** The text of the file at [p], empty when there is none. *)
Definition content_of (n : gmap jsstring Node) (p : jsstring) : jsstring :=
  match n !! p with Some (File c) => c | _ => [] end.

Definition isDir (n : gmap jsstring Node) (p : jsstring) : bool :=
  bool_decide (p = root) ||
  match n !! p with Some Dir => true | _ => false end.

Definition access (p : jsstring) (s : State) : (Err + unit) * State :=
  if bool_decide (p ∈ denied s) then (inl EACCES, s)
  else if bool_decide (p = root) then (inr tt, s)
  else match nodes s !! p with
       | Some _ => (inr tt, s)
       | None => (inl ENOENT, s)
       end.

(** The directories to make for [p], outermost first. *)
Fixpoint chain (prefix : jsstring) (segs : list jsstring) : list jsstring :=
  match segs with
  | [] => []
  | seg :: rest =>
      let here := prefix ++ SLASH :: seg in here :: chain here rest
  end.

Fixpoint mkdirs (dirs : list jsstring) (n : gmap jsstring Node)
  : Err + gmap jsstring Node :=
  match dirs with
  | [] => inr n
  | d :: rest =>
      match n !! d with
      | Some (File _) =>
          inl (match rest with [] => EEXIST | _ => ENOTDIR end)
      | Some Dir => mkdirs rest n
      | None => mkdirs rest (<[d := Dir]> n)
      end
  end.

Definition mkdir_recursive (p : jsstring) (s : State) : (Err + unit) * State :=
  match mkdirs (chain [] (Path.segments p)) (nodes s) with
  | inl e => (inl e, s)
  | inr n => (inr tt, with_nodes s n)
  end.

Definition open (p : jsstring) (flag : Flag) (s : State)
  : (Err + Handle) * State :=
  match nodes s !! p with
  | Some Dir => (inl EISDIR, s)
  | Some (File c) =>
      match flag with
      | FlagW => (inr (Opened p), with_nodes s (<[p := File []]> (nodes s)))
      | _ => (inr (Opened p), s)
      end
  | None =>
      match flag with
      | FlagR => (inl ENOENT, s)
      | _ =>
          if isDir (nodes s) (Path.dirname p)
          then (inr (Opened p), with_nodes s (<[p := File []]> (nodes s)))
          else (inl ENOENT, s)
      end
  end.

Definition close (h : Handle) (s : State) : (Err + unit) * State :=
  (inr tt, s).

Definition write (h : Handle) (content : jsstring) (s : State)
  : (Err + unit) * State :=
  match h with
  | Opened p =>
      match nodes s !! p with
      | Some (File c) =>
          (inr tt, with_nodes s (<[p := File (c ++ content)]> (nodes s)))
      | _ => (inl EBADF, s)
      end
  | CommandFile => (inl EBADF, s)
  end.

Definition hstat (h : Handle) (s : State) : (Err + Stats) * State :=
  match h with
  | CommandFile =>
      (inr (mkStats false (N.of_nat (length (command s))) 0 0 0), s)
  | Opened p =>
      match nodes s !! p with
      | Some (File c) => (inr (mkStats false (N.of_nat (length c)) 0 0 0), s)
      | _ => (inl EBADF, s)
      end
  end.

(** A buffer of [size] zero bytes, overwritten from position 0 of the
    command file. *)
Definition hread (h : Handle) (size : N) (s : State)
  : (Err + list Byte.byte) * State :=
  match h with
  | CommandFile =>
      let got := take (N.to_nat size) (command s) in
      (inr (got ++ replicate (N.to_nat size - length got) Byte.x00), s)
  | Opened _ => (inl EBADF, s)
  end.

Definition unlink (p : jsstring) (s : State) : (Err + unit) * State :=
  match nodes s !! p with
  | Some (File _) => (inr tt, with_nodes s (delete p (nodes s)))
  | Some Dir => (inl EISDIR, s)
  | None => (inl ENOENT, s)
  end.

(** Only regular files are moved; a directory is refused. *)
Definition rename (a b : jsstring) (s : State) : (Err + unit) * State :=
  match nodes s !! a with
  | Some (File c) =>
      if negb (isDir (nodes s) (Path.dirname b)) then (inl ENOENT, s)
      else match nodes s !! b with
           | Some Dir => (inl EISDIR, s)
           | _ => (inr tt, with_nodes s (<[b := File c]> (delete a (nodes s))))
           end
  | Some Dir => (inl ENOTSUP, s)
  | None => (inl ENOENT, s)
  end.

Definition readFile (p : jsstring) (s : State) : (Err + jsstring) * State :=
  match nodes s !! p with
  | Some (File c) => (inr c, s)
  | Some Dir => (inl EISDIR, s)
  | None => (inl ENOENT, s)
  end.

Definition copyFile (a b : jsstring) (s : State) : (Err + unit) * State :=
  match nodes s !! a with
  | Some (File c) =>
      if negb (isDir (nodes s) (Path.dirname b)) then (inl ENOENT, s)
      else match nodes s !! b with
           | Some Dir => (inl EISDIR, s)
           | _ => (inr tt, with_nodes s (<[b := File c]> (nodes s)))
           end
  | Some Dir => (inl ENOTSUP, s)
  | None => (inl ENOENT, s)
  end.

(** The last name of an absolute, normalised path. *)
Definition basename (p : jsstring) : jsstring :=
  default [] (last (Path.segments p)).

(** Order of strings by code units. *)
Fixpoint str_leb (a b : jsstring) : bool :=
  match a, b with
  | [], _ => true
  | _ :: _, [] => false
  | x :: a', y :: b' =>
      if (x <? y)%N then true
      else if (y <? x)%N then false
      else str_leb a' b'
  end.

Fixpoint insert_entry (e : Dirent) (l : list Dirent) : list Dirent :=
  match l with
  | [] => [e]
  | x :: l' =>
      if str_leb (de_name e) (de_name x) then e :: l
      else x :: insert_entry e l'
  end.

Definition sort_entries (l : list Dirent) : list Dirent :=
  foldr insert_entry [] l.

(** The entries directly under [p], sorted by name. *)
Definition readdir (p : jsstring) (s : State)
  : (Err + list Dirent) * State :=
  if isDir (nodes s) p then
    (inr (sort_entries
            (omap (fun kv : jsstring * Node =>
                     if bool_decide (Path.dirname kv.1 = p)
                     then Some (mkDirent (basename kv.1)
                                  (match kv.2 with Dir => true | _ => false end))
                     else None)
                  (map_to_list (nodes s)))), s)
  else (inl (match nodes s !! p with Some _ => ENOTDIR | None => ENOENT end), s).

Definition stat (p : jsstring) (s : State) : (Err + Stats) * State :=
  if bool_decide (p = root) then (inr (mkStats true 0 0 0 0), s)
  else match nodes s !! p with
       | Some (File c) => (inr (mkStats false (N.of_nat (length c)) 0 0 0), s)
       | Some Dir => (inr (mkStats true 0 0 0 0), s)
       | None => (inl ENOENT, s)
       end.

Definition port : FsPort State Handle :=
  mkPort State Handle access mkdir_recursive open close write hstat hread
         unlink rename readFile copyFile readdir stat.

(** Decoding of bytes into code units that agrees with UTF-8 on ASCII;
    any other byte becomes U+FFFD. *)
Definition decode_ascii (bs : list Byte.byte) : jsstring :=
  map (fun b => let n := Byte.to_N b in
                if (n <? 128)%N then n else 65533%N) bs.

Definition bytes (s : string) : list Byte.byte := list_byte_of_string s.

End MemFs.

(* ------------------------------------------------------------------------- *)
(** ** Concrete situations *)

Module Demo.

Definition cwd : jsstring := lit "/work".

(** The memory of a watcher that has just started. *)
Definition m0 : Mem := mkMem false [] [].

Definition empty : MemFs.State := MemFs.mkState ∅ ∅ [].

(** Two files side by side in the working directory. *)
Definition two_files : MemFs.State :=
  MemFs.mkState
    (<[lit "/work/a.txt" := MemFs.File (lit "A")]>
       (<[lit "/work/b.txt" := MemFs.File (lit "B")]>
          (<[lit "/work" := MemFs.Dir]> ∅)))
    ∅ [].

(** A file that is there but cannot be examined. *)
Definition locked : MemFs.State :=
  MemFs.mkState
    (<[lit "/work/secret.txt" := MemFs.File (lit "s")]>
       (<[lit "/work" := MemFs.Dir]> ∅))
    {[ lit "/work/secret.txt" ]} [].

(** A command file holding [text]. *)
Definition watching (text : string) : MemFs.State :=
  MemFs.mkState ∅ ∅ (MemFs.bytes text).

Definition parse (raw : jsstring) : Async MemFs.State unit :=
  parseAndExecute MemFs.port cwd raw.

Definition listener : Async MemFs.State unit :=
  onChange MemFs.port cwd MemFs.CommandFile MemFs.decode_ascii.

End Demo.

(* ------------------------------------------------------------------------- *)
(** ** Keeping a record of the calls that fail *)

(** The calls of the port. *)
Inductive Call : Type :=
| CAccess | CMkdir | COpen | CClose | CWrite | CHandleStat | CHandleRead
| CUnlink | CRename | CReadFile | CCopyFile | CReaddir | CStat.

Section Traced.
Context {FsState Handle : Type}.
Variable port : FsPort FsState Handle.

(** [io], with its failure, if it fails, added to the record. *)
Definition recorded {X} (c : Call) (io : FsState -> (Err + X) * FsState)
    (st : FsState * list (Call * Err))
  : (Err + X) * (FsState * list (Call * Err)) :=
  ((io st.1).1,
   ((io st.1).2,
    match (io st.1).1 with
    | inl e => st.2 ++ [(c, e)]
    | inr _ => st.2
    end)).

(** [port], answering as [port] does and recording every failure. *)
Definition traced : FsPort (FsState * list (Call * Err)) Handle :=
  mkPort (FsState * list (Call * Err)) Handle
    (fun p => recorded CAccess (fs_access port p))
    (fun p => recorded CMkdir (fs_mkdir_recursive port p))
    (fun p f => recorded COpen (fs_open port p f))
    (fun h => recorded CClose (handle_close port h))
    (fun h c => recorded CWrite (handle_write port h c))
    (fun h => recorded CHandleStat (handle_stat port h))
    (fun h n => recorded CHandleRead (handle_read port h n))
    (fun p => recorded CUnlink (fs_unlink port p))
    (fun a b => recorded CRename (fs_rename port a b))
    (fun p => recorded CReadFile (fs_readFile port p))
    (fun a b => recorded CCopyFile (fs_copyFile port a b))
    (fun p => recorded CReaddir (fs_readdir port p))
    (fun p => recorded CStat (fs_stat port p)).

(** [failures_reported ok t]: [t] only adds to the console, and every
    call that failed while [t] ran, the existence check apart, has its
    error as the cause of an error line that [t] added, with a message
    in [ok]. *)
Definition failures_reported (ok : Msg -> Prop)
    (t : Async (FsState * list (Call * Err)) unit) : Prop :=
  forall m s,
    exists out,
      console (run t m (s, [])).2.1 = console m ++ out /\
      forall c e,
        In (c, e) (run t m (s, [])).2.2.2 -> c <> CAccess ->
        exists msg, ok msg /\ In (mkLine ERROR msg (Some e)) out.

End Traced.

(* ------------------------------------------------------------------------- *)
(** ** Vocabulary for the further properties *)



(** [sep] occurs somewhere in [rest]. *)
Definition occurs (sep rest : jsstring) : Prop :=
  exists a b, rest = a ++ sep ++ b.

(** A path one of whose segments is [..]. *)
Definition steps_up (p : jsstring) : Prop :=
  In Path.dotdot (Path.split_slash p).



(** What [listDirectory] prints for the entries it read. *)
Definition listing (entries : list Dirent) : list LogLine :=
  match entries with
  | [] => [mkLine PLAIN EmptyDirectory None]
  | _ => map (fun entry =>
                mkLine PLAIN (DirEntry (de_isDirectory entry) (de_name entry))
                       None) entries
  end.

(* ========================================================================= *)
(** * Properties *)

(* ------------------------------------------------------------------------- *)
(** ** Strings *)

Section StringLemmas.

Lemma trimStart_blank s : blank s -> trimStart s = [].
Proof.
  induction 1 as [|c s Hc _ IH]; simpl; [reflexivity|]. rewrite Hc. exact IH.
Qed.

Lemma trimStart_nil s : trimStart s = [] -> blank s.
Proof.
  induction s as [|c s IH]; simpl; intros H; [constructor|].
  destruct (isWhiteSpace c) eqn:Hc; [|discriminate].
  constructor; [exact Hc | exact (IH H)].
Qed.

Lemma trimStart_suffix s : exists l, s = l ++ trimStart s.
Proof.
  induction s as [|c s [l IH]]; simpl; [exists []; reflexivity|].
  destruct (isWhiteSpace c).
  - exists (c :: l). simpl. congruence.
  - exists []. reflexivity.
Qed.

Lemma trimEnd_prefix s : exists r, s = trimEnd s ++ r.
Proof.
  unfold trimEnd. destruct (trimStart_suffix (rev s)) as [l Hl].
  exists (rev l). rewrite <- rev_app_distr, <- Hl, rev_involutive. reflexivity.
Qed.

(** What [trim] returns sits inside its argument. *)
Lemma trim_infix s : exists l r, s = l ++ trim s ++ r.
Proof.
  unfold trim. destruct (trimStart_suffix s) as [l Hl].
  destruct (trimEnd_prefix (trimStart s)) as [r Hr].
  exists l, r. rewrite <- Hr. exact Hl.
Qed.

Lemma blank_rev s : blank (rev s) <-> blank s.
Proof.
  unfold blank. split; intros H.
  - rewrite <- (rev_involutive s). apply Forall_rev, H.
  - apply Forall_rev, H.
Qed.

Lemma blank_app a b : blank (a ++ b) <-> blank a /\ blank b.
Proof. apply Forall_app. Qed.

Lemma blank_trimStart s : blank (trimStart s) -> blank s.
Proof.
  induction s as [|c s IH]; simpl; intros H; [constructor|].
  destruct (isWhiteSpace c) eqn:Hc; [|exact H].
  constructor; [exact Hc | exact (IH H)].
Qed.

Lemma trim_nil_iff s : trim s = [] <-> blank s.
Proof.
  unfold trim, trimEnd. split.
  - intros H.
    assert (Hr : trimStart (rev (trimStart s)) = []).
    { rewrite <- (rev_involutive (trimStart _)), H. reflexivity. }
    apply trimStart_nil, blank_rev, blank_trimStart in Hr. exact Hr.
  - intros H. rewrite (trimStart_blank s H). reflexivity.
Qed.

Lemma replaceCRLF_cons2 c d s :
  replaceCRLF (c :: d :: s) =
  if ((c =? CR) && (d =? LF))%N then LF :: replaceCRLF s
  else c :: replaceCRLF (d :: s).
Proof. reflexivity. Qed.

Lemma replaceCRLF_blank_le n s :
  (length s <= n)%nat -> (blank (replaceCRLF s) <-> blank s).
Proof.
  revert s. induction n as [|n IH]; intros [|c [|d s]] Hn; simpl in Hn;
    try lia; try reflexivity.
  rewrite replaceCRLF_cons2.
  destruct ((c =? CR) && (d =? LF))%N eqn:Hcd.
  - apply andb_true_iff in Hcd as [Hc Hd].
    apply N.eqb_eq in Hc, Hd. subst c d.
    unfold blank. rewrite !Forall_cons. fold (blank (replaceCRLF s)) (blank s).
    rewrite (IH s) by lia. split; [intros [_ H]|intros (_ & _ & H)]; repeat split; auto.
  - unfold blank. rewrite (Forall_cons _ c (replaceCRLF _)), (Forall_cons _ c (d :: s)).
    fold (blank (replaceCRLF (d :: s))) (blank (d :: s)).
    rewrite (IH (d :: s)) by (simpl; lia). reflexivity.
Qed.

Lemma replaceCRLF_blank s : blank (replaceCRLF s) <-> blank s.
Proof. apply (replaceCRLF_blank_le (length s)). lia. Qed.

Lemma replaceCRLF_nil s : replaceCRLF s = [] <-> s = [].
Proof.
  split; [|intros ->; reflexivity].
  destruct s as [|c [|d s]]; simpl; try discriminate; [reflexivity|].
  destruct ((c =? CR) && (d =? LF))%N; discriminate.
Qed.

(** The two orders of normalisation are empty together. *)
Lemma normalize_spec_nil raw : normalize_spec raw = [] <-> normalize raw = [].
Proof.
  unfold normalize_spec, normalize.
  rewrite trim_nil_iff, replaceCRLF_blank, replaceCRLF_nil, trim_nil_iff.
  reflexivity.
Qed.

Lemma startsWith_app p b : startsWith (p ++ b) p = true.
Proof.
  induction p as [|c p IH]; simpl; [reflexivity|].
  rewrite N.eqb_refl. exact IH.
Qed.

Lemma startsWith_inv s p : startsWith s p = true -> exists b, s = p ++ b.
Proof.
  revert s. induction p as [|c p IH]; intros s; simpl.
  - intros _. exists s. reflexivity.
  - destruct s as [|d s]; [discriminate|].
    intros H. apply andb_true_iff in H as [Hc Hs].
    apply N.eqb_eq in Hc. subst d.
    destruct (IH s Hs) as [b ->]. exists b. reflexivity.
Qed.

Lemma indexOf_from_unfold s p i :
  indexOf_from s p i =
  if startsWith s p then i
  else match s with
       | [] => -1
       | _ :: s' => indexOf_from s' p (i + 1)
       end.
Proof. destruct s; reflexivity. Qed.

Lemma indexOf_from_first s p a b i :
  first_split p s a b -> indexOf_from s p i = i + len a.
Proof.
  revert s i. induction a as [|c a IH]; intros s i [Hs Hmin];
    rewrite indexOf_from_unfold.
  - subst s. simpl. rewrite startsWith_app. unfold len. simpl. lia.
  - destruct (startsWith s p) eqn:Hsp.
    + apply startsWith_inv in Hsp as [b' Hb'].
      specialize (Hmin [] b' Hb'). simpl in Hmin. lia.
    + subst s. simpl. rewrite (IH (a ++ p ++ b) (i + 1)).
      * unfold len. simpl length. lia.
      * split; [reflexivity|]. intros a' b' Hab.
        specialize (Hmin (c :: a') b'). simpl in Hmin.
        rewrite Hab in Hmin. specialize (Hmin eq_refl). lia.
Qed.

Lemma indexOf_first sep rest pre post :
  first_split sep rest pre post -> indexOf rest sep = len pre.
Proof. intros H. unfold indexOf. rewrite (indexOf_from_first _ _ _ _ _ H). lia. Qed.

Lemma indexOf_from_absent s p i :
  (forall a b, s <> a ++ p ++ b) -> indexOf_from s p i = -1.
Proof.
  revert i. induction s as [|c s IH]; intros i Hno;
    rewrite indexOf_from_unfold;
    (destruct (startsWith _ p) eqn:Hsp;
     [apply startsWith_inv in Hsp as [b Hb]; destruct (Hno [] b Hb)|]).
  - reflexivity.
  - apply IH. intros a b Hs. apply (Hno (c :: a) b). simpl. congruence.
Qed.

(** Whenever the separator is found, it is found at a first split. *)
Lemma indexOf_from_found s p i :
  indexOf_from s p i <> -1 ->
  exists a b, first_split p s a b.
Proof.
  revert i. induction s as [|c s IH]; intros i; rewrite indexOf_from_unfold;
    destruct (startsWith _ p) eqn:Hsp.
  - intros _. apply startsWith_inv in Hsp as [b Hb].
    exists [], b. split; [exact Hb|]. intros; simpl; lia.
  - intros H. destruct H. reflexivity.
  - intros _. apply startsWith_inv in Hsp as [b Hb].
    exists [], b. split; [exact Hb|]. intros; simpl; lia.
  - intros H. destruct (IH _ H) as (a & b & Hs & Hmin).
    exists (c :: a), b. split; [simpl; congruence|].
    intros [|c' a'] b' Hab.
    + simpl in Hab. rewrite Hab, startsWith_app in Hsp. discriminate.
    + simpl in Hab. injection Hab as _ Hab.
      specialize (Hmin a' b' Hab). simpl. lia.
Qed.

Lemma substring_prefix pre x : substring (pre ++ x) 0 (len pre) = pre.
Proof.
  unfold substring, len. rewrite length_app.
  replace (Z.min (Z.max 0 0) _) with 0 by lia.
  replace (Z.min (Z.max (Z.of_nat (length pre)) 0) _)
    with (Z.of_nat (length pre)) by lia.
  replace (Z.min 0 _) with 0 by lia.
  replace (Z.max 0 _) with (Z.of_nat (length pre)) by lia.
  rewrite Z.sub_0_r, Nat2Z.id. simpl. apply take_app_length.
Qed.

Lemma substring_from_suffix pre sep post :
  substring_from (pre ++ sep ++ post) (len pre + len sep) = post.
Proof.
  unfold substring_from, len.
  rewrite <- Nat2Z.inj_add, Nat2Z.id, app_assoc.
  apply drop_app_length'. rewrite length_app. reflexivity.
Qed.

(** A split at the place [indexOf] reports is a first split. *)
Lemma first_split_intro sep rest pre post :
  rest = pre ++ sep ++ post -> indexOf rest sep = len pre ->
  first_split sep rest pre post.
Proof.
  intros Hrest Hidx. split; [exact Hrest|]. intros a b Hab.
  assert (Hfound : indexOf_from rest sep 0 <> -1).
  { fold (indexOf rest sep). rewrite Hidx. unfold len. lia. }
  destruct (indexOf_from_found _ _ _ Hfound) as (a0 & b0 & H0).
  pose proof (indexOf_first _ _ _ _ H0) as Hidx0.
  destruct H0 as [_ Hmin]. specialize (Hmin a b Hab).
  rewrite Hidx in Hidx0. unfold len in Hidx0. lia.
Qed.

(** No separator is left in the trimmed text before a first split. *)
Lemma first_split_left_clean sep rest pre post :
  sep <> [] -> first_split sep rest pre post -> indexOf (trim pre) sep = -1.
Proof.
  intros Hsep [Hrest Hmin]. apply indexOf_from_absent. intros a b Hab.
  destruct (trim_infix pre) as (l & r & Hpre). rewrite Hab in Hpre.
  specialize (Hmin (l ++ a) (b ++ r ++ sep ++ post)).
  assert (Hlen : (length pre <= length (l ++ a))%nat).
  { apply Hmin. rewrite Hrest, Hpre. rewrite <- !app_assoc. reflexivity. }
  apply (f_equal length) in Hpre. rewrite !length_app in Hpre.
  rewrite length_app in Hlen.
  destruct sep; [congruence|simpl in Hpre; lia].
Qed.

End StringLemmas.

(* ------------------------------------------------------------------------- *)
(** ** Running asynchronous functions *)

Section RunLemmas.
Context {FsState : Type}.
#[local] Abbreviation Async := (Async FsState).

Lemma run_bind {A B} (t : Async A) (k : A -> Async B) m s :
  run (bind t k) m s =
  match run t m s with
  | (inr a, w) => run (k a) w.1 w.2
  | (inl e, w) => (inl e, w)
  end.
Proof.
  revert m s; induction t as [a|e|X f c IH|X io c IH]; intros m s; simpl; auto.
Qed.

Lemma run_mbind {A B} (t : Async A) (k : A -> Async B) m s :
  run (t ≫= k) m s =
  match run t m s with
  | (inr a, w) => run (k a) w.1 w.2
  | (inl e, w) => (inl e, w)
  end.
Proof. apply run_bind. Qed.

Lemma run_try_catch {A} (t : Async A) (h : Err -> Async A) m s :
  run (try_catch t h) m s =
  match run t m s with
  | (inr a, w) => (inr a, w)
  | (inl e, w) => run (h e) w.1 w.2
  end.
Proof.
  revert m s; induction t as [a|e|X f c IH|X io c IH]; intros m s; simpl; auto.
Qed.

Lemma run_finally {A} (t : Async A) (f : Async unit) m s :
  run (finally_ t f) m s =
  match run t m s with
  | (r, w) =>
      match run f w.1 w.2 with
      | (inr _, w') => (r, w')
      | (inl e, w') => (inl e, w')
      end
  end.
Proof.
  revert m s; induction t as [a|e|X f' c IH|X io c IH]; intros m s; simpl; auto.
  - rewrite run_bind. destruct (run f m s) as [[e|[]] [m' s']]; reflexivity.
  - rewrite run_bind. destruct (run f m s) as [[e'|[]] [m' s']]; reflexivity.
Qed.

Lemma run_awaited {A} (t : Async A) m s : run (awaited t) m s = run t m s.
Proof.
  revert m s; induction t as [a|e|X f c IH|X io c IH]; intros m s; simpl; auto.
Qed.

Lemma nothrow_awaited {A} (t : Async A) : nothrow t -> nothrow (awaited t).
Proof. intros H m s. rewrite run_awaited. apply H. Qed.

Lemma nothrow_bind {A B} (t : Async A) (k : A -> Async B) :
  nothrow t -> (forall a, nothrow (k a)) -> nothrow (t ≫= k).
Proof.
  intros Ht Hk m s. rewrite run_mbind.
  destruct (Ht m s) as (a & w & ->). apply Hk.
Qed.

Lemma nothrow_try_catch {A} (t : Async A) (h : Err -> Async A) :
  (forall e, nothrow (h e)) -> nothrow (try_catch t h).
Proof.
  intros Hh m s. rewrite run_try_catch.
  destruct (run t m s) as [[e|a] w]; [apply Hh | eauto].
Qed.

Lemma nothrow_finally {A} (t : Async A) (f : Async unit) :
  nothrow t -> nothrow f -> nothrow (finally_ t f).
Proof.
  intros Ht Hf m s. rewrite run_finally.
  destruct (Ht m s) as (a & w & ->).
  destruct (Hf w.1 w.2) as ([] & w' & ->). eauto.
Qed.

Lemma nothrow_write_mem (f : Mem -> Mem) : nothrow (FsState:=FsState) (write_mem f).
Proof. intros m s. simpl. eauto. Qed.

Lemma nothrow_ret {A} (a : A) : nothrow (FsState:=FsState) (Ret a).
Proof. intros m s. simpl. eauto. Qed.

Lemma nothrow_print_commands cs :
  nothrow (FsState:=FsState) (print_commands cs).
Proof.
  induction cs as [|c cs IH]; [apply nothrow_ret|].
  cbn [print_commands]. apply nothrow_bind; [apply nothrow_write_mem | auto].
Qed.

End RunLemmas.


(* ------------------------------------------------------------------------- *)
(** ** Nothing thrown by a command escapes *)

Section NoThrow.
Context {FsState Handle : Type}.
Variable port : FsPort FsState Handle.
Variable process_cwd : jsstring.
Variable file : Handle.
Variable utf8_decode : list Byte.byte -> jsstring.

Ltac caught := apply nothrow_try_catch; intros e; apply nothrow_write_mem.

Lemma nothrow_createFile raw : nothrow (createFile port process_cwd raw).
Proof. caught. Qed.
Lemma nothrow_deleteFile raw : nothrow (deleteFile port process_cwd raw).
Proof. caught. Qed.
Lemma nothrow_renameFile a b : nothrow (renameFile port process_cwd a b).
Proof. caught. Qed.
Lemma nothrow_addToFile raw c : nothrow (addToFile port process_cwd raw c).
Proof. caught. Qed.
Lemma nothrow_readFile raw : nothrow (readFile port process_cwd raw).
Proof. caught. Qed.
Lemma nothrow_copyFile a b : nothrow (copyFile port process_cwd a b).
Proof. caught. Qed.
Lemma nothrow_listDirectory raw : nothrow (listDirectory port process_cwd raw).
Proof. caught. Qed.
Lemma nothrow_fileInfo raw : nothrow (fileInfo port process_cwd raw).
Proof. caught. Qed.

Lemma nothrow_parseAndExecute raw :
  nothrow (parseAndExecute port process_cwd raw).
Proof.
  unfold parseAndExecute.
  destruct (negb _); [apply nothrow_write_mem|].
  apply nothrow_bind; [apply nothrow_write_mem|intros _].
  repeat match goal with
         | |- nothrow (if ?b then _ else _) => destruct b
         end;
    try apply nothrow_write_mem; try apply nothrow_awaited;
    auto using nothrow_createFile, nothrow_deleteFile, nothrow_renameFile,
      nothrow_addToFile, nothrow_readFile, nothrow_copyFile,
      nothrow_listDirectory, nothrow_fileInfo.
Qed.

Lemma nothrow_onChange : nothrow (onChange port process_cwd file utf8_decode).
Proof.
  unfold onChange. intros m s. simpl.
  destruct (processing m); simpl; [eauto|].
  apply nothrow_finally; [|apply nothrow_write_mem].
  apply nothrow_try_catch; intros e; apply nothrow_write_mem.
Qed.

End NoThrow.

(* ------------------------------------------------------------------------- *)
(** ** The flag across suspension points *)

Section Flag.
Context {FsState Handle : Type}.
Variable port : FsPort FsState Handle.
Variable process_cwd : jsstring.
Variable file : Handle.
Variable utf8_decode : list Byte.byte -> jsstring.
#[local] Abbreviation Async := (Async FsState).

Lemma quiet_bind {A B} (t : Async A) (k : A -> Async B) :
  quiet t -> (forall a, quiet (k a)) -> quiet (t ≫= k).
Proof.
  intros Ht Hk. change (quiet (bind t k)).
  induction t as [a|e|X f c IH|X io c IH]; simpl in *; auto.
  - intros m. destruct (Ht m) as (? & ? & ?). auto.
Qed.

Lemma quiet_try_catch {A} (t : Async A) (h : Err -> Async A) :
  quiet t -> (forall e, quiet (h e)) -> quiet (try_catch t h).
Proof.
  intros Ht Hh.
  induction t as [a|e|X f c IH|X io c IH]; simpl in *; auto.
  - intros m. destruct (Ht m) as (? & ? & ?). auto.
Qed.

Lemma quiet_awaited {A} (t : Async A) : quiet t -> quiet (awaited t).
Proof.
  intros Ht.
  induction t as [a|e|X f c IH|X io c IH]; simpl in *; auto.
  - intros [e|a']; exact I.
  - intros [e'|a']; exact I.
  - intros m. destruct (Ht m) as (? & ? & ?). auto.
Qed.

Lemma quiet_print l : quiet (FsState:=FsState) (write_mem (print l)).
Proof. intros m. simpl. auto. Qed.

Lemma quiet_lift {A} (r : Err + A) : quiet (FsState:=FsState) (lift r).
Proof. destruct r; simpl; auto. Qed.

Lemma quiet_await {X} (io : FsState -> (Err + X) * FsState) : quiet (await io).
Proof. intros r. apply quiet_lift. Qed.

Lemma quiet_ret {A} (a : A) : quiet (FsState:=FsState) (Ret a).
Proof. exact I. Qed.

Lemma quiet_print_entries es : quiet (FsState:=FsState) (print_entries es).
Proof.
  induction es as [|e es IH]; [exact I|].
  cbn [print_entries]. apply quiet_bind; [apply quiet_print | auto].
Qed.

Lemma quiet_print_commands cs : quiet (FsState:=FsState) (print_commands cs).
Proof.
  induction cs as [|c cs IH]; [exact I|].
  cbn [print_commands]. apply quiet_bind; [apply quiet_print | auto].
Qed.

Ltac quiet_step :=
  first
    [ exact I | apply quiet_print | apply quiet_lift | apply quiet_await
    | apply quiet_print_entries
    | apply quiet_print_commands
    | apply quiet_awaited
    | apply quiet_try_catch; [|intros ?]
    | apply quiet_bind; [|intros ?]
    | match goal with
      | |- quiet (if ?b then _ else _) => destruct b
      end ].

Lemma quiet_pathExists p : quiet (pathExists port p).
Proof. unfold pathExists. repeat quiet_step. Qed.

Ltac quiet_cmd := repeat first [apply quiet_pathExists | quiet_step].

Lemma quiet_createFile raw : quiet (createFile port process_cwd raw).
Proof. unfold createFile, createFile_body. quiet_cmd. Qed.
Lemma quiet_deleteFile raw : quiet (deleteFile port process_cwd raw).
Proof. unfold deleteFile, deleteFile_body. quiet_cmd. Qed.
Lemma quiet_renameFile a b : quiet (renameFile port process_cwd a b).
Proof. unfold renameFile, renameFile_body. quiet_cmd. Qed.
Lemma quiet_addToFile raw c : quiet (addToFile port process_cwd raw c).
Proof. unfold addToFile, addToFile_body. quiet_cmd. Qed.
Lemma quiet_readFile raw : quiet (readFile port process_cwd raw).
Proof. unfold readFile, readFile_body. quiet_cmd. Qed.
Lemma quiet_copyFile a b : quiet (copyFile port process_cwd a b).
Proof. unfold copyFile, copyFile_body. quiet_cmd. Qed.
Lemma quiet_listDirectory raw : quiet (listDirectory port process_cwd raw).
Proof. unfold listDirectory, listDirectory_body. quiet_cmd. Qed.
Lemma quiet_fileInfo raw : quiet (fileInfo port process_cwd raw).
Proof. unfold fileInfo, fileInfo_body. quiet_cmd. Qed.

Lemma quiet_parseAndExecute raw : quiet (parseAndExecute port process_cwd raw).
Proof.
  unfold parseAndExecute.
  destruct (negb _); [apply quiet_print|].
  apply quiet_bind; [apply quiet_print|intros _].
  repeat match goal with
         | |- quiet (if ?b then _ else _) => destruct b
         end;
    try apply quiet_awaited;
    first [ apply quiet_print | apply quiet_createFile | apply quiet_deleteFile
          | apply quiet_renameFile | apply quiet_addToFile
          | apply quiet_readFile | apply quiet_copyFile
          | apply quiet_listDirectory | apply quiet_fileInfo
          | idtac ].
  repeat quiet_step.
Qed.

Lemma holding_mono {A} (Q Q' : Err + A -> Mem -> Prop) (t : Async A) m :
  (forall r m', Q r m' -> Q' r m') -> holding Q t m -> holding Q' t m.
Proof.
  intros HQ. revert m.
  induction t as [a|e|X f c IH|X io c IH]; intros m; simpl; auto.
  intros [Hm Hk]. split; auto.
Qed.

Lemma quiet_holding {A} (t : Async A) m :
  quiet t -> processing m = true ->
  holding (fun _ m' => processing m' = true) t m.
Proof.
  revert m.
  induction t as [a|e|X f c IH|X io c IH]; intros m Hq Hm; simpl in *; auto.
  destruct (Hq m) as (Hp & _ & Hc). apply IH; [exact Hc | congruence].
Qed.

Lemma run_quiet {A} (t : Async A) m s :
  quiet t ->
  processing (run t m s).2.1 = processing m /\
  lastContent (run t m s).2.1 = lastContent m.
Proof.
  revert m s.
  induction t as [a|e|X f c IH|X io c IH]; intros m s Hq; simpl in *; auto.
  destruct (Hq m) as (Hp & Hl & Hc).
  destruct (IH _ (f m).2 s Hc) as [IHp IHl]. split; congruence.
Qed.

Lemma holding_bind {A B} (Q : Err + B -> Mem -> Prop)
    (t : Async A) (k : A -> Async B) m :
  holding (fun r m' => match r with
                       | inl e => Q (inl e) m'
                       | inr a => holding Q (k a) m'
                       end) t m ->
  holding Q (t ≫= k) m.
Proof.
  change (t ≫= k) with (bind t k). revert m.
  induction t as [a|e|X f c IH|X io c IH]; intros m; simpl; auto.
  intros [Hm Hk]. split; auto.
Qed.

Lemma holding_try_catch {A} (Q : Err + A -> Mem -> Prop)
    (t : Async A) (h : Err -> Async A) m :
  holding (fun r m' => match r with
                       | inl e => holding Q (h e) m'
                       | inr a => Q (inr a) m'
                       end) t m ->
  holding Q (try_catch t h) m.
Proof.
  revert m.
  induction t as [a|e|X f c IH|X io c IH]; intros m; simpl; auto.
  intros [Hm Hk]. split; auto.
Qed.

Lemma holding_finally_release {A} (t : Async A) m :
  holding (fun r _ => returned r) t m ->
  holding (fun r m' => returned r /\ processing m' = false)
          (finally_ t (write_mem (set_processing false))) m.
Proof.
  revert m.
  induction t as [a|e|X f c IH|X io c IH]; intros m; simpl; auto.
  intros [Hm Hk]. split; auto.
Qed.

(** The body of a cycle is suspended only with the flag up. *)
Lemma holding_onChange_body m :
  processing m = true ->
  holding (fun _ _ => True) (onChange_body port process_cwd file utf8_decode) m.
Proof.
  intros Hm. unfold onChange_body. simpl. split; [exact Hm|].
  intros [e|stats] m1 Hm1; simpl; [exact I|].
  destruct (st_size stats =? 0)%N; simpl; [exact I|].
  split; [exact Hm1|].
  intros [e|buffer] m2 Hm2; simpl; [exact I|].
  destruct (str_eqb _ _); simpl; [exact I|].
  eapply holding_mono; [|apply quiet_holding];
    [intros; exact I | apply quiet_awaited, quiet_parseAndExecute | exact Hm2].
Qed.

Lemma holding_onChange_cycle m :
  processing m = true ->
  holding (fun r m' => returned r /\ processing m' = false)
          (onChange_cycle port process_cwd file utf8_decode) m.
Proof.
  intros Hm. unfold onChange_cycle.
  apply holding_finally_release, holding_try_catch.
  eapply holding_mono; [|apply holding_onChange_body; exact Hm].
  intros [e|[]] m' _; simpl; exact I.
Qed.

End Flag.

(* ------------------------------------------------------------------------- *)
(** ** The event loop keeps the single-flight discipline *)

Section Invariant.
Context {FsState Handle : Type}.
Variable port : FsPort FsState Handle.
Variable process_cwd : jsstring.
Variable file : Handle.
Variable utf8_decode : list Byte.byte -> jsstring.

Lemma advance_holding (t : Async FsState unit) m :
  holding (fun r m' => returned r /\ processing m' = false) t m ->
  match advance t m with
  | (Finished r, m') => returned r /\ processing m' = false
  | (Blocked io k, m') => processing m' = true /\ releasing (mkTask io k)
  end.
Proof.
  revert m.
  induction t as [a|e|X f c IH|X io c IH]; intros m; simpl; auto.
  exact (IH _ _).
Qed.

Lemma park_single_flight (t : Async FsState unit) m s :
  holding (fun r m' => returned r /\ processing m' = false) t m ->
  single_flight (park (advance t m) s [] []).
Proof.
  intros H. apply advance_holding in H. unfold park, single_flight.
  destruct (advance t m) as [[[e|[]]|X io k] m']; simpl in *.
  - destruct H as [[] _].
  - destruct H as [_ H]. auto.
  - destruct H as [Hm Hr]. split; [reflexivity|]. right. eauto.
Qed.

Lemma advance_onChange m :
  advance (onChange port process_cwd file utf8_decode) m =
  if processing m then (Finished (inr tt), m)
  else advance (onChange_cycle port process_cwd file utf8_decode)
         (set_processing true m).
Proof. unfold onChange. simpl. destruct (processing m); reflexivity. Qed.

Lemma step_single_flight ev (σ : Sys FsState) :
  single_flight σ ->
  single_flight (step port process_cwd file utf8_decode ev σ).
Proof.
  destruct σ as [m s tasks unhandled].
  intros [Hu Hcase]. cbn [sys_unhandled] in Hu. subst unhandled.
  cbn [sys_mem sys_tasks] in Hcase.
  destruct ev as [[|]|i|g];
    cbn [step sys_mem sys_fs sys_tasks sys_unhandled].
  - rewrite advance_onChange.
    destruct Hcase as [[Hm Ht]|[Hm Ht]]; rewrite Hm.
    + subst tasks.
      apply park_single_flight, holding_onChange_cycle. reflexivity.
    + split; [reflexivity|]. right. exact (conj Hm Ht).
  - split; auto.
  - destruct Hcase as [[Hm Ht]|[Hm (t & Ht & Hr)]]; subst tasks.
    + split; [reflexivity|]. left. auto.
    + destruct i as [|i]; cbn [lookup list_lookup];
        [|split; [reflexivity|right; eauto]].
      destruct t as [X io k]. cbn [delete list_delete].
      apply park_single_flight, Hr, Hm.
  - split; [reflexivity|exact Hcase].
Qed.

Lemma exec_single_flight evs (σ : Sys FsState) :
  single_flight σ ->
  single_flight (exec port process_cwd file utf8_decode evs σ).
Proof.
  revert σ. induction evs as [|ev evs IH]; intros σ H; simpl; [exact H|].
  apply IH, step_single_flight, H.
Qed.

Lemma boot_single_flight printed (s : FsState) :
  single_flight (boot printed s).
Proof. split; [reflexivity|]. left. split; reflexivity. Qed.

End Invariant.

(* ------------------------------------------------------------------------- *)
(** ** Failures stay inside, and the flag brackets a cycle *)

Section Watcher.
Context {FsState Handle : Type}.
Variable port : FsPort FsState Handle.
Variable process_cwd : jsstring.
Variable file : Handle.
Variable utf8_decode : list Byte.byte -> jsstring.

Lemma reports_try_catch (body : Async FsState unit) msg :
  reports (try_catch body (fun err => logger_error msg (Some err))) body msg.
Proof.
  intros m s. rewrite run_try_catch.
  destruct (run body m s) as [[e|a] [m' s']]; reflexivity.
Qed.

Lemma run_onChange_idle lc printed s :
  processing
    (run (onChange port process_cwd file utf8_decode)
         (mkMem false lc printed) s).2.1 = false.
Proof.
  unfold onChange. cbn [run read_mem write_mem mbind async_bind bind fst snd
                        processing].
  unfold onChange_cycle. rewrite run_finally.
  destruct (run (try_catch _ _) _ s) as [r [m' s']]. reflexivity.
Qed.

(** C5. A notification that finds the flag down raises it and suspends at
    the first awaited call with the flag up; one that finds it up returns
    at once and leaves everything as it was; a cycle run to its end leaves
    the flag down on every path; and in every run of the event loop at
    most one cycle is in flight, the flag being down exactly when none
    is. *)
Theorem processing_flag_brackets_cycle :
  (forall lc printed,
      exists k,
        advance (onChange port process_cwd file utf8_decode)
                (mkMem false lc printed)
        = (Blocked (handle_stat port file) k, mkMem true lc printed)) /\
  (forall lc printed,
      advance (onChange port process_cwd file utf8_decode)
              (mkMem true lc printed)
      = (Finished (inr tt), mkMem true lc printed)) /\
  (forall lc printed s,
      processing
        (run (onChange port process_cwd file utf8_decode)
             (mkMem false lc printed) s).2.1 = false) /\
  (forall evs printed s,
      let σ := exec port process_cwd file utf8_decode evs (boot printed s) in
      (length (sys_tasks σ) <= 1)%nat /\
      (processing (sys_mem σ) = false <-> sys_tasks σ = [])).
Proof.
  split; [|split; [|split]].
  - intros lc printed. eexists. reflexivity.
  - intros lc printed. reflexivity.
  - apply run_onChange_idle.
  - intros evs printed s σ.
    destruct (exec_single_flight port process_cwd file utf8_decode evs
                (boot printed s) (boot_single_flight printed s))
      as [_ [[Hm Ht]|[Hm (t & Ht & _)]]]; fold σ in Hm, Ht; rewrite Hm, Ht.
    + simpl. split; [lia|tauto].
    + simpl. split; [lia|]. split; discriminate.
Qed.

End Watcher.

(* ------------------------------------------------------------------------- *)
(** ** Parsing *)

Section Parsing.
Context {FsState Handle : Type}.
Variable port : FsPort FsState Handle.
Variable process_cwd : jsstring.

Lemma first_split_index_found sep rest pre post :
  first_split sep rest pre post -> (indexOf rest sep =? -1) = false.
Proof.
  intros H. rewrite (indexOf_first _ _ _ _ H). apply Z.eqb_neq. unfold len. lia.
Qed.

Lemma parse_rename raw r0 pre post :
  normalize raw = Commands.RENAME_FILE ++ r0 ->
  first_split TO (trim r0) pre post ->
  parseAndExecute port process_cwd raw =
  (logger_info (CommandReceived (normalize raw)) ≫= fun _ =>
   awaited (renameFile port process_cwd (trim pre) (trim post))).
Proof.
  intros Hn Hs. unfold parseAndExecute. rewrite Hn.
  change (truthy (Commands.RENAME_FILE ++ r0)) with true.
  change (startsWith (Commands.RENAME_FILE ++ r0) Commands.CREATE_FILE)
    with false.
  change (startsWith (Commands.RENAME_FILE ++ r0) Commands.DELETE_FILE)
    with false.
  change (startsWith (Commands.RENAME_FILE ++ r0) Commands.RENAME_FILE)
    with true.
  change (substring_from (Commands.RENAME_FILE ++ r0) (len Commands.RENAME_FILE))
    with r0.
  cbn [negb]. rewrite (first_split_index_found _ _ _ _ Hs).
  rewrite (indexOf_first _ _ _ _ Hs).
  destruct Hs as [-> _].
  rewrite substring_prefix.
  change 4 with (len TO). rewrite substring_from_suffix. reflexivity.
Qed.

Lemma parse_copy raw r0 pre post :
  normalize raw = Commands.COPY_FILE ++ r0 ->
  first_split TO (trim r0) pre post ->
  parseAndExecute port process_cwd raw =
  (logger_info (CommandReceived (normalize raw)) ≫= fun _ =>
   awaited (copyFile port process_cwd (trim pre) (trim post))).
Proof.
  intros Hn Hs. unfold parseAndExecute. rewrite Hn.
  change (truthy (Commands.COPY_FILE ++ r0)) with true.
  change (startsWith (Commands.COPY_FILE ++ r0) Commands.CREATE_FILE)
    with false.
  change (startsWith (Commands.COPY_FILE ++ r0) Commands.DELETE_FILE)
    with false.
  change (startsWith (Commands.COPY_FILE ++ r0) Commands.RENAME_FILE)
    with false.
  change (startsWith (Commands.COPY_FILE ++ r0) Commands.ADD_TO_FILE)
    with false.
  change (startsWith (Commands.COPY_FILE ++ r0) Commands.READ_FILE)
    with false.
  change (startsWith (Commands.COPY_FILE ++ r0) Commands.COPY_FILE)
    with true.
  change (substring_from (Commands.COPY_FILE ++ r0) (len Commands.COPY_FILE))
    with r0.
  cbn [negb]. rewrite (first_split_index_found _ _ _ _ Hs).
  rewrite (indexOf_first _ _ _ _ Hs).
  destruct Hs as [-> _].
  rewrite substring_prefix.
  change 4 with (len TO). rewrite substring_from_suffix. reflexivity.
Qed.

Lemma parse_add raw r0 pre content :
  normalize raw = Commands.ADD_TO_FILE ++ r0 ->
  first_split MARKER (trim r0) pre content ->
  parseAndExecute port process_cwd raw =
  (logger_info (CommandReceived (normalize raw)) ≫= fun _ =>
   awaited (addToFile port process_cwd (trim pre) content)).
Proof.
  intros Hn Hs. unfold parseAndExecute. rewrite Hn.
  change (truthy (Commands.ADD_TO_FILE ++ r0)) with true.
  change (startsWith (Commands.ADD_TO_FILE ++ r0) Commands.CREATE_FILE)
    with false.
  change (startsWith (Commands.ADD_TO_FILE ++ r0) Commands.DELETE_FILE)
    with false.
  change (startsWith (Commands.ADD_TO_FILE ++ r0) Commands.RENAME_FILE)
    with false.
  change (startsWith (Commands.ADD_TO_FILE ++ r0) Commands.ADD_TO_FILE)
    with true.
  change (substring_from (Commands.ADD_TO_FILE ++ r0) (len Commands.ADD_TO_FILE))
    with r0.
  cbn [negb]. rewrite (first_split_index_found _ _ _ _ Hs).
  rewrite (indexOf_first _ _ _ _ Hs).
  destruct Hs as [-> _].
  rewrite substring_prefix, substring_from_suffix. reflexivity.
Qed.

(** C8. An input that normalises to the empty string, in the order the
    specification gives, is empty for the parser too: the whole of
    [parseAndExecute] is then the one warning, with no file-system call in
    it, and running it leaves the file system as it was. *)
Theorem empty_command_is_ignored (raw : jsstring) :
  normalize_spec raw = [] ->
  normalize raw = [] /\
  parseAndExecute port process_cwd raw = logger_warn ReceivedEmptyCommand /\
  forall m s,
    run (parseAndExecute port process_cwd raw) m s =
    (inr tt, (print (mkLine WARN ReceivedEmptyCommand None) m, s)).
Proof.
  intros H. apply normalize_spec_nil in H.
  assert (Hp : parseAndExecute port process_cwd raw
               = logger_warn ReceivedEmptyCommand).
  { unfold parseAndExecute. rewrite H. reflexivity. }
  split; [exact H|]. split; [exact Hp|].
  intros m s. rewrite Hp. reflexivity.
Qed.

(** C9. When the text after [rename the file] or [copy the file], trimmed,
    has its first [" to "] after [pre] and before [post], the command
    renames, or copies, [pre] to [post], each trimmed, whatever further
    separators [post] holds; and the left operand never contains the
    separator. *)
Theorem rename_copy_split_at_first_to (raw r0 pre post : jsstring) :
  first_split TO (trim r0) pre post ->
  (normalize raw = Commands.RENAME_FILE ++ r0 ->
   parseAndExecute port process_cwd raw =
   (logger_info (CommandReceived (normalize raw)) ≫= fun _ =>
    awaited (renameFile port process_cwd (trim pre) (trim post)))) /\
  (normalize raw = Commands.COPY_FILE ++ r0 ->
   parseAndExecute port process_cwd raw =
   (logger_info (CommandReceived (normalize raw)) ≫= fun _ =>
    awaited (copyFile port process_cwd (trim pre) (trim post)))) /\
  indexOf (trim pre) TO = -1.
Proof.
  intros Hs. split; [|split].
  - intros Hn. apply (parse_rename raw r0 pre post Hn Hs).
  - intros Hn. apply (parse_copy raw r0 pre post Hn Hs).
  - apply (first_split_left_clean TO (trim r0) pre post); [discriminate|exact Hs].
Qed.

End Parsing.

(* ------------------------------------------------------------------------- *)
(** ** The commands against any file system *)

Section AnyPort.
Context {FsState Handle : Type}.
Variable port : FsPort FsState Handle.
Variable process_cwd : jsstring.
Variable file : Handle.
Variable utf8_decode : list Byte.byte -> jsstring.

Lemma run_pathExists p m s :
  run (pathExists port p) m s =
  (inr (match (fs_access port p s).1 with inl _ => false | inr _ => true end),
   (m, (fs_access port p s).2)).
Proof.
  unfold pathExists. simpl. destruct (fs_access port p s) as [[e|[]] s']; reflexivity.
Qed.

Lemma run_createFile_existing raw p m s s' :
  resolveSafePath process_cwd raw = inr p ->
  fs_access port p s = (inr tt, s') ->
  run (createFile port process_cwd raw) m s =
  (inr tt, (print (mkLine WARN (FileAlreadyExists p) None) m, s')).
Proof.
  intros Hp Ha. unfold createFile, createFile_body, pathExists.
  rewrite Hp. simpl. rewrite Ha. reflexivity.
Qed.

Lemma run_createFile_new raw p m s e s0 s1 h s2 s3 :
  resolveSafePath process_cwd raw = inr p ->
  fs_access port p s = (inl e, s0) ->
  fs_mkdir_recursive port (Path.dirname p) s0 = (inr tt, s1) ->
  fs_open port p FlagW s1 = (inr h, s2) ->
  handle_close port h s2 = (inr tt, s3) ->
  run (createFile port process_cwd raw) m s =
  (inr tt, (print (mkLine OK (FileCreated p) None) m, s3)).
Proof.
  intros Hp Ha Hm Ho Hc. unfold createFile, createFile_body, pathExists.
  rewrite Hp. simpl. rewrite Ha. simpl. rewrite Hm. simpl.
  rewrite Ho. simpl. rewrite Hc. reflexivity.
Qed.

Lemma run_addToFile raw content p m s s1 h s2 s3 s4 :
  resolveSafePath process_cwd raw = inr p ->
  fs_mkdir_recursive port (Path.dirname p) s = (inr tt, s1) ->
  fs_open port p FlagA s1 = (inr h, s2) ->
  handle_write port h content s2 = (inr tt, s3) ->
  handle_close port h s3 = (inr tt, s4) ->
  run (addToFile port process_cwd raw content) m s =
  (inr tt, (print (mkLine OK (ContentAppendedTo p) None) m, s4)).
Proof.
  intros Hp Hm Ho Hw Hc. unfold addToFile, addToFile_body.
  rewrite Hp. simpl. rewrite Hm. simpl. rewrite Ho. simpl.
  rewrite Hw. simpl. rewrite Hc. reflexivity.
Qed.

(** C10. When the access check on a resolved path fails, for whatever
    reason, [pathExists] answers false, and delete, read, file info,
    rename (for its source) and copy (for its source) each print their
    not-found warning and stop: no error line, no other file-system
    call. *)
Theorem inaccessible_path_treated_as_missing raw p e m s s' :
  resolveSafePath process_cwd raw = inr p ->
  fs_access port p s = (inl e, s') ->
  run (pathExists port p) m s = (inr false, (m, s')) /\
  run (deleteFile port process_cwd raw) m s =
    (inr tt, (print (mkLine WARN (FileNotFoundCannotDelete p) None) m, s')) /\
  run (readFile port process_cwd raw) m s =
    (inr tt, (print (mkLine WARN (FileNotFound p) None) m, s')) /\
  run (fileInfo port process_cwd raw) m s =
    (inr tt, (print (mkLine WARN (PathNotFound p) None) m, s')) /\
  forall raw2 p2,
    resolveSafePath process_cwd raw2 = inr p2 ->
    run (renameFile port process_cwd raw raw2) m s =
      (inr tt, (print (mkLine WARN (SourceFileNotFound p) None) m, s')) /\
    run (copyFile port process_cwd raw raw2) m s =
      (inr tt, (print (mkLine WARN (SourceFileNotFound p) None) m, s')).
Proof.
  intros Hp Ha. repeat split.
  - rewrite run_pathExists, Ha. reflexivity.
  - unfold deleteFile, deleteFile_body, pathExists.
    rewrite Hp. simpl. rewrite Ha. reflexivity.
  - unfold readFile, readFile_body, pathExists.
    rewrite Hp. simpl. rewrite Ha. reflexivity.
  - unfold fileInfo, fileInfo_body, pathExists.
    rewrite Hp. simpl. rewrite Ha. reflexivity.
  - unfold renameFile, renameFile_body, pathExists.
    rewrite Hp, H. simpl. rewrite Ha. reflexivity.
  - unfold copyFile, copyFile_body, pathExists.
    rewrite Hp, H. simpl. rewrite Ha. reflexivity.
Qed.

(** C6. When the existence checks find both the old and the new path, and
    leave the file system as it is, [renameFile] prints the
    destination-exists warning and returns with the file system
    untouched. *)
Theorem rename_onto_existing_is_noop rawOld rawNew oldPath newPath m s :
  resolveSafePath process_cwd rawOld = inr oldPath ->
  resolveSafePath process_cwd rawNew = inr newPath ->
  fs_access port oldPath s = (inr tt, s) ->
  fs_access port newPath s = (inr tt, s) ->
  run (renameFile port process_cwd rawOld rawNew) m s =
  (inr tt, (print (mkLine WARN (DestinationAlreadyExists newPath) None) m, s)).
Proof.
  intros Ho Hn Hao Han. unfold renameFile, renameFile_body, pathExists.
  rewrite Ho, Hn. simpl. rewrite Hao. simpl. rewrite Han. reflexivity.
Qed.

Lemma run_onChange_duplicate m s stats s1 buffer s2 :
  processing m = false ->
  handle_stat port file s = (inr stats, s1) ->
  st_size stats <> 0%N ->
  handle_read port file (st_size stats) s1 = (inr buffer, s2) ->
  utf8_decode buffer = lastContent m ->
  run (onChange port process_cwd file utf8_decode) m s = (inr tt, (m, s2)).
Proof.
  intros Hm Hs Hz Hr Hc. destruct m as [pr lc printed]. simpl in Hm, Hc.
  subst pr. unfold onChange, onChange_cycle, onChange_body. simpl.
  rewrite Hs. simpl. apply N.eqb_neq in Hz. rewrite Hz. simpl.
  rewrite Hr. simpl. rewrite Hc. unfold str_eqb.
  rewrite bool_decide_eq_true_2 by reflexivity. reflexivity.
Qed.

Lemma run_onChange_fresh m s stats s1 buffer s2 :
  processing m = false ->
  handle_stat port file s = (inr stats, s1) ->
  st_size stats <> 0%N ->
  handle_read port file (st_size stats) s1 = (inr buffer, s2) ->
  utf8_decode buffer <> lastContent m ->
  run (onChange port process_cwd file utf8_decode) m s =
  let w := (run (parseAndExecute port process_cwd (utf8_decode buffer))
                (set_lastContent (utf8_decode buffer) (set_processing true m))
                s2).2 in
  (inr tt, (set_processing false w.1, w.2)).
Proof.
  intros Hm Hs Hz Hr Hc. destruct m as [pr lc printed]. simpl in Hm, Hc.
  subst pr. unfold onChange, onChange_cycle, onChange_body. simpl.
  rewrite Hs. simpl. apply N.eqb_neq in Hz. rewrite Hz. simpl.
  rewrite Hr. simpl. unfold str_eqb.
  rewrite bool_decide_eq_false_2 by exact Hc. simpl.
  rewrite run_finally, run_try_catch, run_awaited.
  match goal with
  | |- context [run (parseAndExecute ?a ?b ?c) ?m ?s] =>
      destruct (nothrow_parseAndExecute a b c m s) as ([] & [m' s'] & Hrun)
  end.
  rewrite Hrun. reflexivity.
Qed.

(** C4. A notification that reads content equal to [lastContent] ends with
    memory and console exactly as they were: nothing is parsed, nothing
    executed.  A notification that reads new content runs
    [parseAndExecute] on it once, having recorded it; and when the next
    notification, after that cycle is over, reads the same bytes again,
    it changes nothing. *)
Theorem duplicate_content_is_skipped m s stats s1 buffer s2 :
  processing m = false ->
  handle_stat port file s = (inr stats, s1) ->
  st_size stats <> 0%N ->
  handle_read port file (st_size stats) s1 = (inr buffer, s2) ->
  (utf8_decode buffer = lastContent m ->
   run (onChange port process_cwd file utf8_decode) m s = (inr tt, (m, s2))) /\
  (utf8_decode buffer <> lastContent m ->
   run (onChange port process_cwd file utf8_decode) m s =
   let w := (run (parseAndExecute port process_cwd (utf8_decode buffer))
                 (set_lastContent (utf8_decode buffer) (set_processing true m))
                 s2).2 in
   (inr tt, (set_processing false w.1, w.2))) /\
  let w1 := (run (onChange port process_cwd file utf8_decode) m s).2 in
  forall stats' s1' s2',
    handle_stat port file w1.2 = (inr stats', s1') ->
    st_size stats' <> 0%N ->
    handle_read port file (st_size stats') s1' = (inr buffer, s2') ->
    run (onChange port process_cwd file utf8_decode) w1.1 w1.2 =
    (inr tt, (w1.1, s2')).
Proof.
  intros Hm Hs Hz Hr.
  split; [|split].
  - intros Hc. apply (run_onChange_duplicate m s stats s1 buffer s2); assumption.
  - intros Hc. apply (run_onChange_fresh m s stats s1 buffer s2); assumption.
  - intros w1 stats' s1' s2' Hs' Hz' Hr'.
    assert (Hw : processing w1.1 = false /\ lastContent w1.1 = utf8_decode buffer).
    { subst w1. destruct (decide (utf8_decode buffer = lastContent m)) as [Hc|Hc].
      - rewrite (run_onChange_duplicate m s stats s1 buffer s2) by assumption.
        simpl. auto.
      - rewrite (run_onChange_fresh m s stats s1 buffer s2) by assumption.
        simpl. split; [reflexivity|].
        match goal with
        | |- lastContent (run ?t ?m0 ?s0).2.1 = _ =>
            destruct (run_quiet t m0 s0
                        (quiet_parseAndExecute port process_cwd _)) as [_ Hl]
        end.
        rewrite Hl. reflexivity. }
    destruct Hw as [Hp Hl].
    apply (run_onChange_duplicate w1.1 w1.2 stats' s1' buffer s2');
      auto.
Qed.

End AnyPort.

(* ------------------------------------------------------------------------- *)
(** ** The commands against the in-memory file system *)

Section InMemory.
Variable process_cwd : jsstring.

Import MemFs.

Lemma mkdirs_files (dirs : list jsstring) (n n' : gmap jsstring Node) :
  mkdirs dirs n = inr n' ->
  forall q c, n' !! q = Some (File c) <-> n !! q = Some (File c).
Proof.
  revert n. induction dirs as [|d dirs IH]; intros n; simpl.
  - intros [= ->]. reflexivity.
  - destruct (n !! d) as [[c0|]|] eqn:Hd; [discriminate|apply IH|].
    intros H q c. rewrite (IH _ H q c).
    destruct (decide (d = q)) as [->|Hne].
    + rewrite lookup_insert_eq, Hd. split; discriminate.
    + rewrite lookup_insert_ne by exact Hne. reflexivity.
Qed.

Lemma mkdir_recursive_inv p s s1 :
  mkdir_recursive p s = (inr tt, s1) ->
  denied s1 = denied s /\ command s1 = command s /\
  forall q c, nodes s1 !! q = Some (File c) <-> nodes s !! q = Some (File c).
Proof.
  unfold mkdir_recursive.
  destruct (mkdirs _ (nodes s)) as [e|n] eqn:Hn; [discriminate|].
  intros [= <-]. simpl. repeat split; try apply (mkdirs_files _ _ _ Hn).
Qed.

Lemma open_write_inv p s1 h s2 :
  open p FlagW s1 = (inr h, s2) ->
  h = Opened p /\ s2 = with_nodes s1 (<[p := File []]> (nodes s1)).
Proof.
  unfold open. destruct (nodes s1 !! p) as [[c|]|]; try discriminate.
  - intros [= <- <-]. auto.
  - destruct (isDir _ _); [|discriminate]. intros [= <- <-]. auto.
Qed.

Lemma open_append_inv p s1 h s2 :
  open p FlagA s1 = (inr h, s2) ->
  h = Opened p /\
  nodes s2 = <[p := File (content_of (nodes s1) p)]> (nodes s1) /\
  denied s2 = denied s1 /\ command s2 = command s1.
Proof.
  unfold open, content_of. destruct (nodes s1 !! p) as [[c|]|] eqn:Hp;
    try discriminate.
  - intros [= <- <-]. rewrite insert_id by exact Hp. auto.
  - destruct (isDir _ _); [|discriminate]. intros [= <- <-]. auto.
Qed.

Lemma access_missing_inv p s :
  access p s = (inl ENOENT, s) ->
  (p ∉ denied s) /\ (nodes s !! p = None).
Proof.
  unfold access. case_bool_decide; [discriminate|].
  case_bool_decide; [discriminate|].
  destruct (nodes s !! p); [discriminate|]. auto.
Qed.

(** C7. On a path that does not exist, where the file system lets the
    parent directories be made and the file be opened for writing, the
    first [createFile] prints its success line and leaves the path holding
    an empty file, every other file being as before; the second prints one
    warning and changes nothing on disk; the empty file is still there. *)
Theorem createFile_twice_creates_once raw p m s s1 h s2 :
  resolveSafePath process_cwd raw = inr p ->
  access p s = (inl ENOENT, s) ->
  mkdir_recursive (Path.dirname p) s = (inr tt, s1) ->
  open p FlagW s1 = (inr h, s2) ->
  let first := run (createFile port process_cwd raw) m s in
  let second := run (createFile port process_cwd raw) first.2.1 first.2.2 in
  first = (inr tt, (print (mkLine OK (FileCreated p) None) m, s2)) /\
  nodes s2 !! p = Some (File []) /\
  (forall q c, q <> p ->
     (nodes s2 !! q = Some (File c) <-> nodes s !! q = Some (File c))) /\
  second =
    (inr tt,
     (print (mkLine WARN (FileAlreadyExists p) None)
        (print (mkLine OK (FileCreated p) None) m), s2)) /\
  nodes second.2.2 !! p = Some (File []).
Proof.
  intros Hp Ha Hm Ho first second.
  destruct (access_missing_inv _ _ Ha) as [Hden Hnone].
  destruct (mkdir_recursive_inv _ _ _ Hm) as (Hd1 & _ & Hfiles).
  destruct (open_write_inv _ _ _ _ Ho) as [-> Hs2].
  assert (Hd2 : denied s2 = denied s) by (rewrite Hs2; exact Hd1).
  assert (Hfirst : first
            = (inr tt, (print (mkLine OK (FileCreated p) None) m, s2))).
  { apply (run_createFile_new port process_cwd raw p m s ENOENT s s1
             (Opened p) s2 s2 Hp Ha Hm Ho eq_refl). }
  assert (Hlook : nodes s2 !! p = Some (File [])).
  { rewrite Hs2. simpl. apply lookup_insert_eq. }
  assert (Hacc : access p s2 = (inr tt, s2)).
  { unfold access. rewrite Hd2, Hlook.
    rewrite bool_decide_eq_false_2 by exact Hden.
    case_bool_decide; reflexivity. }
  assert (Hsecond : second
            = (inr tt,
               (print (mkLine WARN (FileAlreadyExists p) None)
                  (print (mkLine OK (FileCreated p) None) m), s2))).
  { subst second. rewrite Hfirst. simpl fst. simpl snd.
    apply (run_createFile_existing port process_cwd raw p _ s2 s2 Hp Hacc). }
  split; [exact Hfirst|]. split; [exact Hlook|]. split.
  - intros q c Hq. rewrite Hs2. simpl.
    rewrite lookup_insert_ne by congruence. apply Hfiles.
  - split; [exact Hsecond|]. rewrite Hsecond. exact Hlook.
Qed.

End InMemory.

(* ------------------------------------------------------------------------- *)
(** ** Appending *)

Section Appending.
Variable process_cwd : jsstring.

Import MemFs.

Lemma content_of_mkdir p d s s1 h s2 :
  mkdir_recursive d s = (inr tt, s1) ->
  open p FlagA s1 = (inr h, s2) ->
  content_of (nodes s1) p = content_of (nodes s) p.
Proof.
  intros Hm Ho. destruct (mkdir_recursive_inv _ _ _ Hm) as (_ & _ & Hfiles).
  unfold content_of. unfold open in Ho.
  destruct (nodes s1 !! p) as [[c|]|] eqn:H1.
  - apply Hfiles in H1. rewrite H1. reflexivity.
  - discriminate.
  - destruct (nodes s !! p) as [[c|]|] eqn:H0; try reflexivity.
    apply Hfiles in H0. congruence.
Qed.

(** C2, as the code has it. An add-to-file command whose remainder,
    trimmed, first splits at the marker into [pre] and [content] appends
    exactly [content] to the file named by [pre], trimmed: the file then
    holds its former text followed by [content], white space at the start
    of [content] included, and no other file changes.  The remainder is
    taken from the normalised command, so white space at the very end of
    the input is not part of [content]. *)
Theorem addToFile_appends_text_after_first_marker
    raw r0 pre content p m s s1 h s2 :
  normalize raw = Commands.ADD_TO_FILE ++ r0 ->
  first_split MARKER (trim r0) pre content ->
  resolveSafePath process_cwd (trim pre) = inr p ->
  mkdir_recursive (Path.dirname p) s = (inr tt, s1) ->
  open p FlagA s1 = (inr h, s2) ->
  parseAndExecute port process_cwd raw =
    (logger_info (CommandReceived (normalize raw)) ≫= fun _ =>
     awaited (addToFile port process_cwd (trim pre) content)) /\
  let w := (run (parseAndExecute port process_cwd raw) m s).2 in
  console w.1 =
    console m ++ [mkLine INFO (CommandReceived (normalize raw)) None;
                  mkLine OK (ContentAppendedTo p) None] /\
  nodes w.2 !! p = Some (File (content_of (nodes s) p ++ content)) /\
  forall q c, q <> p ->
    (nodes w.2 !! q = Some (File c) <-> nodes s !! q = Some (File c)).
Proof.
  intros Hn Hs Hp Hm Ho.
  pose proof (parse_add port process_cwd raw r0 pre content Hn Hs) as Hparse.
  split; [exact Hparse|].
  destruct (open_append_inv _ _ _ _ Ho) as (-> & Hn2 & _ & _).
  assert (Hlook : nodes s2 !! p = Some (File (content_of (nodes s1) p))).
  { rewrite Hn2. apply lookup_insert_eq. }
  assert (Hw : write (Opened p) content s2
               = (inr tt, with_nodes s2
                            (<[p := File (content_of (nodes s1) p ++ content)]>
                               (nodes s2)))).
  { unfold write. rewrite Hlook. reflexivity. }
  intros w. subst w. rewrite Hparse, run_mbind. simpl run at 2.
  cbv beta iota. simpl fst. simpl snd. rewrite run_awaited.
  rewrite (run_addToFile port process_cwd (trim pre) content p _ s s1
             (Opened p) s2 _ _ Hp Hm Ho Hw eq_refl).
  simpl. split; [rewrite <- app_assoc; reflexivity|]. split.
  - rewrite lookup_insert_eq.
    rewrite (content_of_mkdir p _ s s1 _ s2 Hm Ho). reflexivity.
  - intros q c Hq. rewrite lookup_insert_ne by congruence.
    rewrite Hn2, lookup_insert_ne by congruence.
    apply (mkdir_recursive_inv _ _ _ Hm).
Qed.

End Appending.

(* ------------------------------------------------------------------------- *)
(** ** Path validation *)

Example resolve_relative :
  Path.resolve (lit "/work") (lit "./a/../b.txt") = lit "/work/b.txt".
Proof. vm_compute. reflexivity. Qed.

Example resolve_dot : Path.resolve (lit "/work") (lit ".") = lit "/work".
Proof. vm_compute. reflexivity. Qed.

Example resolve_escape :
  resolveSafePath (lit "/work") (lit "../../etc/passwd")
  = inl (PathTraversal (lit "../../etc/passwd")).
Proof. vm_compute. reflexivity. Qed.

Example dirname_nested : Path.dirname (lit "/work/a/b.txt") = lit "/work/a".
Proof. vm_compute. reflexivity. Qed.

Example dirname_top : Path.dirname (lit "/work") = lit "/".
Proof. vm_compute. reflexivity. Qed.

Lemma resolveSafePath_accepts_prefix cwd raw p :
  resolveSafePath cwd raw = inr p ->
  startsWith p (Path.resolve cwd (lit ".")) = true.
Proof.
  unfold resolveSafePath. destruct (_ || _); [discriminate|].
  destruct (startsWith _ _) eqn:H; simpl; [|discriminate].
  intros [= <-]. exact H.
Qed.

(** C1, where the code departs from it. With working directory [/work],
    the path [/work-other/x] is not the working directory nor below it,
    and [resolveSafePath] returns it instead of throwing. *)
Theorem sibling_with_shared_prefix_is_accepted :
  ~ within (lit "/work") (Path.resolve (lit "/work") (lit "/work-other/x")) /\
  resolveSafePath (lit "/work") (lit "/work-other/x")
  = inr (lit "/work-other/x").
Proof.
  split; [|vm_compute; reflexivity].
  unfold within. intros [k Hk]. vm_compute in Hk. discriminate Hk.
Qed.

(* ------------------------------------------------------------------------- *)
(** ** The statements at concrete inputs *)

Lemma empty_command_is_ignored_witness :
  normalize_spec (BOM :: [32; 13; 10; 9; 32]%N) = [] /\
  Demo.parse (BOM :: [32; 13; 10; 9; 32]%N) = logger_warn ReceivedEmptyCommand.
Proof.
  split; [reflexivity|].
  apply (empty_command_is_ignored MemFs.port Demo.cwd
           (BOM :: [32; 13; 10; 9; 32]%N)).
  reflexivity.
Defined.

Lemma rename_copy_split_at_first_to_witness :
  Demo.parse (lit "rename the file a to b to c") =
  (logger_info (CommandReceived (lit "rename the file a to b to c")) ≫= fun _ =>
   awaited (renameFile MemFs.port Demo.cwd (lit "a") (lit "b to c"))).
Proof.
  apply (rename_copy_split_at_first_to MemFs.port Demo.cwd
           (lit "rename the file a to b to c") (lit " a to b to c")
           (lit "a") (lit "b to c")).
  - apply first_split_intro; vm_compute; reflexivity.
  - vm_compute. reflexivity.
Defined.

Lemma addToFile_appends_text_after_first_marker_witness :
  MemFs.nodes
    (run (Demo.parse (lit "add to the file a.txt this content:   hi"))
         Demo.m0 Demo.empty).2.2 !! lit "/work/a.txt"
  = Some (MemFs.File (lit "  hi")).
Proof.
  destruct (addToFile_appends_text_after_first_marker Demo.cwd
           (lit "add to the file a.txt this content:   hi")
           (lit " a.txt this content:   hi") (lit "a.txt") (lit "  hi")
           (lit "/work/a.txt") Demo.m0 Demo.empty
           (MemFs.mkdir_recursive (lit "/work") Demo.empty).2
           (MemFs.Opened (lit "/work/a.txt"))
           (MemFs.open (lit "/work/a.txt") FlagA
              (MemFs.mkdir_recursive (lit "/work") Demo.empty).2).2
           ltac:(vm_compute; reflexivity)
           ltac:(apply first_split_intro; vm_compute; reflexivity)
           ltac:(vm_compute; reflexivity) ltac:(vm_compute; reflexivity)
           ltac:(vm_compute; reflexivity))
    as [_ H].
  cbv zeta in H. destruct H as (_ & Hlook & _). exact Hlook.
Defined.

(** C2, as stated, fails: the text after the first marker ends in two
    spaces, and the file receives it without them. *)
Lemma trailing_whitespace_of_payload_is_lost :
  let raw := lit "add to the file a.txt this content: hi  " in
  let payload := lit "hi  " in
  let written := lit "hi" in
  raw = lit "add to the file a.txt" ++ MARKER ++ payload /\
  MemFs.nodes (run (Demo.parse raw) Demo.m0 Demo.empty).2.2
    !! lit "/work/a.txt" = Some (MemFs.File written) /\
  written <> payload.
Proof.
  split; [reflexivity|]. split; [vm_compute; reflexivity|discriminate].
Qed.

Lemma duplicate_content_is_skipped_witness :
  let s := Demo.watching "create a file a.txt" in
  let w1 := (run Demo.listener Demo.m0 s).2 in
  run Demo.listener w1.1 w1.2 = (inr tt, (w1.1, w1.2)).
Proof.
  intros s w1.
  destruct (duplicate_content_is_skipped MemFs.port Demo.cwd MemFs.CommandFile
              MemFs.decode_ascii Demo.m0 s (mkStats false 19 0 0 0) s
              (MemFs.bytes "create a file a.txt") s
              eq_refl eq_refl ltac:(discriminate) eq_refl)
    as (_ & _ & H).
  apply (H (mkStats false 19 0 0 0) w1.2 w1.2).
  - vm_compute. reflexivity.
  - discriminate.
  - vm_compute. reflexivity.
Defined.

Lemma rename_onto_existing_is_noop_witness :
  run (renameFile MemFs.port Demo.cwd (lit "a.txt") (lit "b.txt"))
      Demo.m0 Demo.two_files
  = (inr tt,
     (print (mkLine WARN (DestinationAlreadyExists (lit "/work/b.txt")) None)
        Demo.m0, Demo.two_files)).
Proof.
  apply (rename_onto_existing_is_noop MemFs.port Demo.cwd
           (lit "a.txt") (lit "b.txt") (lit "/work/a.txt") (lit "/work/b.txt")
           Demo.m0 Demo.two_files);
    vm_compute; reflexivity.
Defined.

Lemma createFile_twice_creates_once_witness :
  let first := run (createFile MemFs.port Demo.cwd (lit "notes.txt"))
                   Demo.m0 Demo.empty in
  MemFs.nodes first.2.2 !! lit "/work/notes.txt" = Some (MemFs.File []) /\
  run (createFile MemFs.port Demo.cwd (lit "notes.txt")) first.2.1 first.2.2
  = (inr tt,
     (print (mkLine WARN (FileAlreadyExists (lit "/work/notes.txt")) None)
        first.2.1, first.2.2)).
Proof.
  intros first.
  destruct (createFile_twice_creates_once Demo.cwd (lit "notes.txt")
              (lit "/work/notes.txt") Demo.m0 Demo.empty
              (MemFs.mkdir_recursive (lit "/work") Demo.empty).2
              (MemFs.Opened (lit "/work/notes.txt"))
              (MemFs.open (lit "/work/notes.txt") FlagW
                 (MemFs.mkdir_recursive (lit "/work") Demo.empty).2).2
              ltac:(vm_compute; reflexivity) ltac:(vm_compute; reflexivity)
              ltac:(vm_compute; reflexivity) ltac:(vm_compute; reflexivity))
    as (Hfirst & Hlook & _ & Hsecond & _).
  fold first in Hfirst, Hsecond. split.
  - rewrite Hfirst. exact Hlook.
  - rewrite Hsecond, Hfirst. reflexivity.
Defined.

Lemma inaccessible_path_treated_as_missing_witness :
  run (deleteFile MemFs.port Demo.cwd (lit "secret.txt")) Demo.m0 Demo.locked
  = (inr tt,
     (print (mkLine WARN (FileNotFoundCannotDelete (lit "/work/secret.txt"))
               None) Demo.m0, Demo.locked)).
Proof.
  apply (inaccessible_path_treated_as_missing MemFs.port Demo.cwd
           (lit "secret.txt") (lit "/work/secret.txt") MemFs.EACCES
           Demo.m0 Demo.locked Demo.locked);
    vm_compute; reflexivity.
Defined.

(* ========================================================================= *)
(** * Further properties of the program *)

(* ------------------------------------------------------------------------- *)
(** ** Which paths are accepted *)

Section Acceptance.

Lemma trim_blank_nil s : blank s -> trim s = [].
Proof. apply trim_nil_iff. Qed.

Lemma truthy_false_nil s : truthy s = false <-> s = [].
Proof. destruct s; simpl; split; congruence. Qed.

(** X1. [resolveSafePath] throws the empty-path error exactly on the
    inputs that are empty or hold only white space; on those it never
    looks at the working directory. *)
Theorem resolveSafePath_empty_iff_blank cwd raw :
  resolveSafePath cwd raw = inl EmptyPath <-> blank raw.
Proof.
  unfold resolveSafePath. split.
  - destruct (negb (truthy raw) || negb (truthy (trim raw))) eqn:Hb.
    + intros _. apply orb_true_iff in Hb as [Hb|Hb];
        apply negb_true_iff, truthy_false_nil in Hb.
      * subst raw. constructor.
      * apply trim_nil_iff, Hb.
    + destruct (negb (startsWith _ _)); discriminate.
  - intros Hb. rewrite (trim_blank_nil raw Hb). simpl.
    rewrite orb_true_r. reflexivity.
Qed.

Lemma split_slash_nonempty s : Path.split_slash s <> [].
Proof.
  destruct s as [|c s]; simpl; [discriminate|].
  destruct (Path.split_slash s); [discriminate|].
  destruct (Path.isSlash c); discriminate.
Qed.

Lemma split_slash_app a b :
  Path.split_slash (a ++ SLASH :: b) = Path.split_slash a ++ Path.split_slash b.
Proof.
  induction a as [|c a IH]; simpl.
  - destruct (Path.split_slash b) eqn:Hb; [destruct (split_slash_nonempty b Hb)|].
    reflexivity.
  - rewrite IH. destruct (Path.split_slash a) eqn:Ha;
      [destruct (split_slash_nonempty a Ha)|].
    simpl. destruct (Path.isSlash c); reflexivity.
Qed.

Lemma normalizeSegs_app f acc xs ys :
  Path.normalizeSegs f acc (xs ++ ys) =
  Path.normalizeSegs f (rev (Path.normalizeSegs f acc xs)) ys.
Proof.
  revert acc. induction xs as [|seg xs IH]; intros acc; simpl.
  - rewrite rev_involutive. reflexivity.
  - destruct (str_eqb seg [] || str_eqb seg Path.dot); [apply IH|].
    destruct (str_eqb seg Path.dotdot); [|apply IH].
    destruct acc as [|top acc]; [apply IH|].
    destruct (str_eqb top Path.dotdot); apply IH.
Qed.

Lemma normalizeSegs_grows acc ys :
  ~ In Path.dotdot ys ->
  exists extra, Path.normalizeSegs false acc ys = rev acc ++ extra.
Proof.
  revert acc. induction ys as [|seg ys IH]; intros acc Hno; simpl.
  - exists []. rewrite app_nil_r. reflexivity.
  - assert (Hys : ~ In Path.dotdot ys) by (intros H; apply Hno; right; exact H).
    destruct (str_eqb seg [] || str_eqb seg Path.dot); [apply IH, Hys|].
    destruct (str_eqb seg Path.dotdot) eqn:Hdd.
    + unfold str_eqb in Hdd. apply bool_decide_eq_true in Hdd.
      destruct Hno. left. exact Hdd.
    + destruct (IH (seg :: acc) Hys) as [extra He].
      exists (seg :: extra). rewrite He. simpl. rewrite <- app_assoc. reflexivity.
Qed.

Lemma startsWith_app_same l x y :
  startsWith (l ++ x) (l ++ y) = startsWith x y.
Proof.
  induction l as [|c l IH]; simpl; [reflexivity|].
  rewrite N.eqb_refl. exact IH.
Qed.

Lemma startsWith_join a b :
  startsWith (Path.join_slash (a ++ b)) (Path.join_slash a) = true.
Proof.
  induction a as [|seg a IH]; [reflexivity|].
  destruct a as [|seg' a].
  - simpl. destruct b as [|seg' b].
    + rewrite <- (app_nil_r seg) at 1. apply startsWith_app.
    + apply startsWith_app.
  - change (startsWith (seg ++ SLASH :: Path.join_slash ((seg' :: a) ++ b))
                       (seg ++ SLASH :: Path.join_slash (seg' :: a)) = true).
    rewrite startsWith_app_same. exact IH.
Qed.

(** X2. In a process whose working directory is absolute, a relative
    path that is not blank and has no [..] segment is never refused:
    [resolveSafePath] returns the path resolved below the working
    directory. *)
Theorem relative_path_without_dotdot_is_accepted cwd raw :
  Path.isAbsolute cwd = true ->
  ~ blank raw ->
  Path.isAbsolute (trim raw) = false ->
  ~ steps_up (trim raw) ->
  resolveSafePath cwd raw = inr (Path.resolve cwd (trim raw)).
Proof.
  intros Habs Hnb Hrel Hno.
  assert (Ht : truthy (trim raw) = true).
  { destruct (trim raw) eqn:E; [|reflexivity].
    destruct Hnb. apply trim_nil_iff, E. }
  assert (Hr : truthy raw = true).
  { destruct raw; [|reflexivity]. discriminate Ht. }
  unfold resolveSafePath. rewrite Hr, Ht. simpl.
  set (N := Path.normalizeSegs false [] (Path.split_slash cwd)).
  assert (Hcwd : Path.resolve cwd (lit ".") = SLASH :: Path.join_slash N).
  { unfold Path.resolve. change (Path.isAbsolute (lit ".")) with false.
    change (truthy (lit ".")) with true. rewrite Habs. cbn [orb negb].
    rewrite split_slash_app, normalizeSegs_app. fold N.
    change (Path.split_slash (lit "." ++ [SLASH])) with [Path.dot; []].
    simpl. rewrite rev_involutive. reflexivity. }
  assert (Hres : exists extra,
             Path.resolve cwd (trim raw)
             = SLASH :: Path.join_slash (N ++ extra)).
  { unfold Path.resolve. rewrite Hrel, Ht, Habs. cbn [orb negb].
    rewrite split_slash_app, normalizeSegs_app. fold N.
    rewrite split_slash_app. change (Path.split_slash []) with [[] : jsstring].
    destruct (normalizeSegs_grows (rev N)
                (Path.split_slash (trim raw) ++ [[] : jsstring]))
      as [extra He].
    { intros Hin. apply in_app_or in Hin as [Hin|[Hin|[]]];
        [exact (Hno Hin)|discriminate Hin]. }
    exists extra. rewrite He, rev_involutive. reflexivity. }
  destruct Hres as [extra Hres].
  assert (Hpre : startsWith (Path.resolve cwd (trim raw))
                            (Path.resolve cwd (lit ".")) = true).
  { rewrite Hcwd, Hres. exact (startsWith_join N extra). }
  rewrite Hpre. reflexivity.
Qed.

End Acceptance.

(* ------------------------------------------------------------------------- *)
(** ** The grammar *)

Section Grammar.
Context {FsState Handle : Type}.
Variable port : FsPort FsState Handle.
Variable process_cwd : jsstring.

(** X3. No text begins with two different verb phrases, so the order in
    which [parseAndExecute] tries them decides nothing. *)
Theorem verb_phrases_exclude_each_other (command v1 v2 : jsstring) :
  In v1 Commands.values -> In v2 Commands.values ->
  startsWith command v1 = true -> startsWith command v2 = true ->
  v1 = v2.
Proof.
  intros H1 H2 Hs1 Hs2. apply startsWith_inv in Hs1 as [b ->].
  simpl in H1, H2.
  repeat (destruct H1 as [<-|H1]; [|]);
    try (destruct H1);
    repeat (destruct H2 as [<-|H2]; [|]);
    try (destruct H2);
    first [reflexivity | discriminate Hs2].
Qed.

Lemma indexOf_from_lower s p a b i :
  s = a ++ p ++ b -> i <= indexOf_from s p i.
Proof.
  revert s i. induction a as [|c a IH]; intros s i ->;
    rewrite indexOf_from_unfold.
  - simpl. rewrite startsWith_app. lia.
  - destruct (startsWith _ p); [lia|]. simpl.
    specialize (IH (a ++ p ++ b) (i + 1) eq_refl). lia.
Qed.

Lemma indexOf_absent_iff sep rest :
  indexOf rest sep = -1 <-> ~ occurs sep rest.
Proof.
  unfold indexOf, occurs. split.
  - intros H (a & b & Hab).
    pose proof (indexOf_from_lower rest sep a b 0 Hab). lia.
  - intros H. apply indexOf_from_absent. intros a b Hab. apply H. eauto.
Qed.

(** X4. A rename or copy command without [" to "], and an add command
    without [" this content: "], print the command and one syntax error
    and reach no file-system call. *)
Theorem malformed_command_is_refused (raw r0 : jsstring) :
  (normalize raw = Commands.RENAME_FILE ++ r0 -> ~ occurs TO (trim r0) ->
   parseAndExecute port process_cwd raw =
   (logger_info (CommandReceived (normalize raw)) ≫= fun _ =>
    logger_error RenameSyntax None)) /\
  (normalize raw = Commands.COPY_FILE ++ r0 -> ~ occurs TO (trim r0) ->
   parseAndExecute port process_cwd raw =
   (logger_info (CommandReceived (normalize raw)) ≫= fun _ =>
    logger_error CopyFileSyntax None)) /\
  (normalize raw = Commands.ADD_TO_FILE ++ r0 -> ~ occurs MARKER (trim r0) ->
   parseAndExecute port process_cwd raw =
   (logger_info (CommandReceived (normalize raw)) ≫= fun _ =>
    logger_error AddToFileSyntax None)).
Proof.
  split; [|split]; intros Hn Hno; apply indexOf_absent_iff in Hno;
    unfold parseAndExecute; rewrite Hn.
  - change (truthy (Commands.RENAME_FILE ++ r0)) with true.
    change (startsWith (Commands.RENAME_FILE ++ r0) Commands.CREATE_FILE)
      with false.
    change (startsWith (Commands.RENAME_FILE ++ r0) Commands.DELETE_FILE)
      with false.
    change (startsWith (Commands.RENAME_FILE ++ r0) Commands.RENAME_FILE)
      with true.
    change (substring_from (Commands.RENAME_FILE ++ r0)
              (len Commands.RENAME_FILE)) with r0.
    cbn [negb]. rewrite Hno. reflexivity.
  - change (truthy (Commands.COPY_FILE ++ r0)) with true.
    change (startsWith (Commands.COPY_FILE ++ r0) Commands.CREATE_FILE)
      with false.
    change (startsWith (Commands.COPY_FILE ++ r0) Commands.DELETE_FILE)
      with false.
    change (startsWith (Commands.COPY_FILE ++ r0) Commands.RENAME_FILE)
      with false.
    change (startsWith (Commands.COPY_FILE ++ r0) Commands.ADD_TO_FILE)
      with false.
    change (startsWith (Commands.COPY_FILE ++ r0) Commands.READ_FILE)
      with false.
    change (startsWith (Commands.COPY_FILE ++ r0) Commands.COPY_FILE)
      with true.
    change (substring_from (Commands.COPY_FILE ++ r0)
              (len Commands.COPY_FILE)) with r0.
    cbn [negb]. rewrite Hno. reflexivity.
  - change (truthy (Commands.ADD_TO_FILE ++ r0)) with true.
    change (startsWith (Commands.ADD_TO_FILE ++ r0) Commands.CREATE_FILE)
      with false.
    change (startsWith (Commands.ADD_TO_FILE ++ r0) Commands.DELETE_FILE)
      with false.
    change (startsWith (Commands.ADD_TO_FILE ++ r0) Commands.RENAME_FILE)
      with false.
    change (startsWith (Commands.ADD_TO_FILE ++ r0) Commands.ADD_TO_FILE)
      with true.
    change (substring_from (Commands.ADD_TO_FILE ++ r0)
              (len Commands.ADD_TO_FILE)) with r0.
    cbn [negb]. rewrite Hno. reflexivity.
Qed.

Lemma truthy_true_not_nil s : s <> [] -> truthy s = true.
Proof. destruct s; [congruence|reflexivity]. Qed.

(** X5. A text that is not empty once normalised and begins with none of
    the verb phrases prints the command, the unknown-command warning,
    the heading and the eight phrases, and leaves the file system as it
    was. *)
Theorem unknown_command_lists_the_phrases (raw : jsstring) m s :
  normalize raw <> [] ->
  (forall v, In v Commands.values -> startsWith (normalize raw) v = false) ->
  run (parseAndExecute port process_cwd raw) m s =
  (inr tt,
   (mkMem (processing m) (lastContent m)
      (console m ++
       [mkLine INFO (CommandReceived (normalize raw)) None;
        mkLine WARN (UnknownCommand (normalize raw)) None;
        mkLine INFO AvailableCommands None] ++
       map (fun c => mkLine PLAIN (CommandBullet c) None) Commands.values),
    s)).
Proof.
  intros Hne Hnone. unfold parseAndExecute.
  rewrite (truthy_true_not_nil _ Hne). cbn [negb].
  rewrite !Hnone by (simpl; tauto).
  simpl. unfold print. simpl. rewrite <- !app_assoc. reflexivity.
Qed.

Lemma run_logger_info msg m (s : FsState) :
  run (logger_info msg) m s = (inr tt, (print (mkLine INFO msg None) m, s)).
Proof. reflexivity. Qed.

Lemma startsWith_refl s : startsWith s s = true.
Proof. rewrite <- (app_nil_r s) at 1. apply startsWith_app. Qed.

Lemma run_print_entries (entries : list Dirent) m (s : FsState) :
  run (print_entries entries) m s =
  (inr tt,
   (mkMem (processing m) (lastContent m)
      (console m ++
       map (fun entry =>
              mkLine PLAIN (DirEntry (de_isDirectory entry) (de_name entry))
                     None) entries), s)).
Proof.
  revert m. induction entries as [|e es IH]; intros m; simpl.
  - rewrite app_nil_r. destruct m; reflexivity.
  - rewrite IH. simpl. rewrite <- app_assoc. reflexivity.
Qed.

Lemma run_listDirectory_ok raw dir entries m s s' :
  resolveSafePath process_cwd (if truthy raw then raw else lit ".") = inr dir ->
  fs_readdir port dir s = (inr entries, s') ->
  run (listDirectory port process_cwd raw) m s =
  (inr tt,
   (mkMem (processing m) (lastContent m)
      (console m ++
       [mkLine OK (ContentsOf dir) None; mkLine PLAIN Rule None] ++
       listing entries ++ [mkLine PLAIN Rule None]),
    s')).
Proof.
  intros Hres Hread. unfold listDirectory, listDirectory_body.
  rewrite Hres. simpl. rewrite Hread. simpl.
  destruct entries as [|e es].
  - simpl. unfold print. simpl. rewrite <- !app_assoc. reflexivity.
  - simpl. unfold async_bind.
    rewrite run_try_catch, run_bind, run_print_entries. simpl.
    unfold print. simpl. rewrite <- !app_assoc. reflexivity.
Qed.

(** X6. [list the directory] with nothing after it lists the working
    directory: when reading that directory yields [entries], the console
    receives the command, the heading with the working directory, a rule,
    one line per entry (or the empty-directory line), and a rule. *)
Theorem list_without_argument_lists_cwd (raw r0 : jsstring) entries m s s' :
  normalize raw = Commands.LIST_DIR ++ r0 ->
  blank r0 ->
  fs_readdir port (Path.resolve process_cwd (lit ".")) s = (inr entries, s') ->
  run (parseAndExecute port process_cwd raw) m s =
  (inr tt,
   (mkMem (processing m) (lastContent m)
      (console m ++
       [mkLine INFO (CommandReceived (normalize raw)) None;
        mkLine OK (ContentsOf (Path.resolve process_cwd (lit "."))) None;
        mkLine PLAIN Rule None] ++
       listing entries ++ [mkLine PLAIN Rule None]),
    s')).
Proof.
  intros Hn Hb Hread. unfold parseAndExecute. rewrite Hn.
  change (truthy (Commands.LIST_DIR ++ r0)) with true.
  change (startsWith (Commands.LIST_DIR ++ r0) Commands.CREATE_FILE) with false.
  change (startsWith (Commands.LIST_DIR ++ r0) Commands.DELETE_FILE) with false.
  change (startsWith (Commands.LIST_DIR ++ r0) Commands.RENAME_FILE) with false.
  change (startsWith (Commands.LIST_DIR ++ r0) Commands.ADD_TO_FILE) with false.
  change (startsWith (Commands.LIST_DIR ++ r0) Commands.READ_FILE) with false.
  change (startsWith (Commands.LIST_DIR ++ r0) Commands.COPY_FILE) with false.
  change (startsWith (Commands.LIST_DIR ++ r0) Commands.LIST_DIR) with true.
  change (substring_from (Commands.LIST_DIR ++ r0) (len Commands.LIST_DIR))
    with r0.
  cbn [negb]. rewrite (trim_blank_nil r0 Hb). cbv zeta.
  cbn [truthy]. cbv iota.
  set (cmd := Commands.LIST_DIR ++ r0).
  set (dir := Path.resolve process_cwd (lit ".")) in *.
  assert (Hres : resolveSafePath process_cwd
                   (if truthy (lit ".") then lit "." else lit ".") = inr dir).
  { unfold resolveSafePath, dir. change (truthy (lit ".")) with true. cbv iota.
    change (trim (lit ".")) with (lit ".").
    change (truthy (lit ".")) with true. rewrite startsWith_refl. reflexivity. }
  rewrite run_mbind, run_logger_info. cbv beta iota. simpl fst. simpl snd.
  rewrite run_awaited.
  rewrite (run_listDirectory_ok (lit ".") dir entries _ s s' Hres Hread).
  unfold print. cbn [processing lastContent console].
  rewrite <- app_assoc. reflexivity.
Qed.

End Grammar.

(* ------------------------------------------------------------------------- *)
(** ** What every command does, whatever the file system answers *)

Section EveryCommand.
Context {FsState Handle : Type}.
Variable port : FsPort FsState Handle.
Variable process_cwd : jsstring.

(** X7. A command whose path is refused by [resolveSafePath] prints its
    error line with the cause and makes no file-system call; for rename
    and copy this holds when either path is refused, also when the other
    one is fine. *)
Theorem refused_path_reaches_no_file_system_call raw e m s :
  resolveSafePath process_cwd raw = inl e ->
  run (createFile port process_cwd raw) m s =
    (inr tt, (print (mkLine ERROR (CreateFileFailed raw) (Some e)) m, s)) /\
  run (deleteFile port process_cwd raw) m s =
    (inr tt, (print (mkLine ERROR (DeleteFileFailed raw) (Some e)) m, s)) /\
  run (readFile port process_cwd raw) m s =
    (inr tt, (print (mkLine ERROR (ReadFileFailed raw) (Some e)) m, s)) /\
  run (fileInfo port process_cwd raw) m s =
    (inr tt, (print (mkLine ERROR (FileInfoFailed raw) (Some e)) m, s)) /\
  (forall content,
     run (addToFile port process_cwd raw content) m s =
     (inr tt, (print (mkLine ERROR (AddToFileFailed raw) (Some e)) m, s))) /\
  (truthy raw = true ->
   run (listDirectory port process_cwd raw) m s =
   (inr tt, (print (mkLine ERROR (ListDirectoryFailed raw) (Some e)) m, s))) /\
  (forall other,
     run (renameFile port process_cwd raw other) m s =
     (inr tt, (print (mkLine ERROR (RenameFileFailed raw other) (Some e)) m, s)) /\
     run (copyFile port process_cwd raw other) m s =
     (inr tt, (print (mkLine ERROR (CopyFileFailed raw other) (Some e)) m, s))) /\
  (forall other p,
     resolveSafePath process_cwd other = inr p ->
     run (renameFile port process_cwd other raw) m s =
     (inr tt, (print (mkLine ERROR (RenameFileFailed other raw) (Some e)) m, s)) /\
     run (copyFile port process_cwd other raw) m s =
     (inr tt, (print (mkLine ERROR (CopyFileFailed other raw) (Some e)) m, s))).
Proof.
  intros He. repeat split.
  - unfold createFile, createFile_body. rewrite He. reflexivity.
  - unfold deleteFile, deleteFile_body. rewrite He. reflexivity.
  - unfold readFile, readFile_body. rewrite He. reflexivity.
  - unfold fileInfo, fileInfo_body. rewrite He. reflexivity.
  - intros content. unfold addToFile, addToFile_body. rewrite He. reflexivity.
  - intros Ht. unfold listDirectory, listDirectory_body. rewrite Ht, He.
    reflexivity.
  - unfold renameFile, renameFile_body. rewrite He. reflexivity.
  - unfold copyFile, copyFile_body. rewrite He. reflexivity.
  - unfold renameFile, renameFile_body. rewrite H, He. reflexivity.
  - unfold copyFile, copyFile_body. rewrite H, He. reflexivity.
Qed.


Ltac answer call :=
  match goal with
  | |- context [call ?s] =>
      let r := fresh "r" in
      let s' := fresh "s" in
      destruct (call s) as [[?|r] s']; simpl
  end.

Ltac answers :=
  repeat
    match goal with
    | |- context [fs_access port ?p ?s] => answer (fs_access port p)
    | |- context [fs_mkdir_recursive port ?p ?s] =>
        answer (fs_mkdir_recursive port p)
    | |- context [fs_open port ?p ?f ?s] => answer (fs_open port p f)
    | |- context [handle_close port ?h ?s] => answer (handle_close port h)
    | |- context [handle_write port ?h ?c ?s] => answer (handle_write port h c)
    | |- context [fs_unlink port ?p ?s] => answer (fs_unlink port p)
    | |- context [fs_rename port ?a ?b ?s] => answer (fs_rename port a b)
    | |- context [fs_readFile port ?p ?s] => answer (fs_readFile port p)
    | |- context [fs_copyFile port ?a ?b ?s] => answer (fs_copyFile port a b)
    | |- context [fs_stat port ?p ?s] => answer (fs_stat port p)
    end.





End EveryCommand.

(* ------------------------------------------------------------------------- *)
(** ** Cycles that run no command, and cycles left to finish *)

Section Cycles.
Context {FsState Handle : Type}.
Variable port : FsPort FsState Handle.
Variable process_cwd : jsstring.
Variable file : Handle.
Variable utf8_decode : list Byte.byte -> jsstring.

(** X9. A notification that finds the command file empty changes nothing
    in memory and prints nothing, so the content seen last stays
    recorded; one whose [stat] or [read] fails prints the unexpected-error
    line with the cause, and nothing else changes.  In each case the flag
    is down afterwards. *)
Theorem cycle_without_a_command m s :
  processing m = false ->
  (forall stats s1,
     handle_stat port file s = (inr stats, s1) -> st_size stats = 0%N ->
     run (onChange port process_cwd file utf8_decode) m s = (inr tt, (m, s1))) /\
  (forall e s1,
     handle_stat port file s = (inl e, s1) ->
     run (onChange port process_cwd file utf8_decode) m s =
     (inr tt, (print (mkLine ERROR UnexpectedError (Some e)) m, s1))) /\
  (forall stats s1 e s2,
     handle_stat port file s = (inr stats, s1) -> st_size stats <> 0%N ->
     handle_read port file (st_size stats) s1 = (inl e, s2) ->
     run (onChange port process_cwd file utf8_decode) m s =
     (inr tt, (print (mkLine ERROR UnexpectedError (Some e)) m, s2))).
Proof.
  intros Hm. destruct m as [pr lc printed]. simpl in Hm. subst pr.
  split; [|split].
  - intros stats s1 Hs Hz.
    unfold onChange, onChange_cycle, onChange_body. simpl.
    rewrite Hs. simpl. rewrite Hz. reflexivity.
  - intros e s1 Hs.
    unfold onChange, onChange_cycle, onChange_body. simpl.
    rewrite Hs. reflexivity.
  - intros stats s1 e s2 Hs Hz Hr.
    unfold onChange, onChange_cycle, onChange_body. simpl.
    rewrite Hs. simpl. apply N.eqb_neq in Hz. rewrite Hz. simpl.
    rewrite Hr. reflexivity.
Qed.

Lemma exec_settle_next n (σ : Sys FsState) :
  exec port process_cwd file utf8_decode (replicate (S n) (Settle 0)) σ =
  exec port process_cwd file utf8_decode (replicate n (Settle 0))
       (step port process_cwd file utf8_decode (Settle 0) σ).
Proof. reflexivity. Qed.

Lemma cycle_drains (t : Async FsState unit) m s :
  holding (fun r m' => returned r /\ processing m' = false) t m ->
  exists n,
    let σ := exec port process_cwd file utf8_decode (replicate n (Settle 0))
                  (park (advance t m) s [] []) in
    sys_tasks σ = [] /\ processing (sys_mem σ) = false /\
    sys_unhandled σ = [].
Proof.
  revert m s. induction t as [a|e|X f c IH|X io c IH]; intros m s H.
  - exists 0%nat. simpl in *. destruct H as [_ H]. auto.
  - simpl in H. destruct H as [[] _].
  - simpl in H. destruct (IH _ _ s H) as [n Hn]. exists n. exact Hn.
  - simpl in H. destruct H as [Hm Hk].
    destruct (IH (io s).1 m (io s).2 (Hk _ m Hm)) as [n Hn].
    exists (S n). rewrite exec_settle_next. exact Hn.
Qed.

(** X10. From every state the event loop can reach, letting the awaited
    calls complete one after the other, with no new notification, ends
    the cycle in flight after finitely many completions: no cycle is left,
    the flag is down, and nothing was thrown. *)
Theorem cycle_in_flight_completes evs printed s :
  exists n,
    let σ := exec port process_cwd file utf8_decode
                  (evs ++ replicate n (Settle 0)) (boot printed s) in
    sys_tasks σ = [] /\ processing (sys_mem σ) = false /\
    sys_unhandled σ = [].
Proof.
  pose proof (exec_single_flight port process_cwd file utf8_decode evs
                (boot printed s) (boot_single_flight printed s)) as Hσ.
  unfold exec in *. setoid_rewrite foldl_app.
  set (σ := foldl _ (boot printed s) evs) in *.
  destruct σ as [m fs tasks unhandled].
  destruct Hσ as [Hu [[Hm Ht]|[Hm (t & Ht & Hr)]]]; simpl in Hu, Hm, Ht; subst.
  - exists 0%nat. simpl. auto.
  - destruct t as [X io k].
    destruct (cycle_drains (k (io fs).1) m (io fs).2 (Hr _ m Hm)) as [n Hn].
    exists (S n). exact Hn.
Qed.

End Cycles.

(* ------------------------------------------------------------------------- *)
(** ** Commands one after the other, on the in-memory file system *)

Section Sequences.
Variable process_cwd : jsstring.

Import MemFs.

Lemma run_deleteFile_existing {FsState Handle} (pt : FsPort FsState Handle)
    raw p m s s' s'' :
  resolveSafePath process_cwd raw = inr p ->
  fs_access pt p s = (inr tt, s') ->
  fs_unlink pt p s' = (inr tt, s'') ->
  run (deleteFile pt process_cwd raw) m s =
  (inr tt, (print (mkLine OK (FileDeleted p) None) m, s'')).
Proof.
  intros Hp Ha Hu. unfold deleteFile, deleteFile_body, pathExists.
  rewrite Hp. simpl. rewrite Ha. simpl. rewrite Hu. reflexivity.
Qed.

(** X11. Creating a file that did not exist and then deleting it prints
    the two success lines and leaves the path absent and every file as it
    was before; the directories made on the way stay. *)
Theorem create_then_delete_leaves_no_file raw p m s s1 h s2 :
  resolveSafePath process_cwd raw = inr p ->
  access p s = (inl ENOENT, s) ->
  mkdir_recursive (Path.dirname p) s = (inr tt, s1) ->
  open p FlagW s1 = (inr h, s2) ->
  let w1 := (run (createFile port process_cwd raw) m s).2 in
  let w2 := (run (deleteFile port process_cwd raw) w1.1 w1.2).2 in
  console w2.1 =
    console m ++ [mkLine OK (FileCreated p) None;
                  mkLine OK (FileDeleted p) None] /\
  nodes w2.2 !! p = None /\
  forall q c, nodes w2.2 !! q = Some (File c) <-> nodes s !! q = Some (File c).
Proof.
  intros Hp Ha Hm Ho w1 w2.
  destruct (access_missing_inv _ _ Ha) as [Hden Hnone].
  destruct (mkdir_recursive_inv _ _ _ Hm) as (Hd1 & _ & Hfiles).
  destruct (open_write_inv _ _ _ _ Ho) as [-> Hs2].
  assert (Hw1 : w1 = (print (mkLine OK (FileCreated p) None) m, s2)).
  { subst w1.
    rewrite (run_createFile_new port process_cwd raw p m s ENOENT s s1
               (Opened p) s2 s2 Hp Ha Hm Ho eq_refl). reflexivity. }
  assert (Hlook : nodes s2 !! p = Some (File [])).
  { rewrite Hs2. simpl. apply lookup_insert_eq. }
  assert (Hacc : access p s2 = (inr tt, s2)).
  { assert (Hd2 : denied s2 = denied s) by (rewrite Hs2; exact Hd1).
    unfold access. rewrite Hd2, Hlook.
    rewrite bool_decide_eq_false_2 by exact Hden.
    case_bool_decide; reflexivity. }
  assert (Hunl : unlink p s2 = (inr tt, with_nodes s2 (delete p (nodes s2)))).
  { unfold unlink. rewrite Hlook. reflexivity. }
  subst w2. rewrite Hw1. simpl fst. simpl snd.
  rewrite (run_deleteFile_existing port raw p _ s2 s2 _ Hp Hacc Hunl).
  simpl. split; [rewrite <- app_assoc; reflexivity|].
  split; [apply lookup_delete_eq|].
  intros q c. destruct (decide (q = p)) as [->|Hq].
  - rewrite lookup_delete_eq, Hnone. split; discriminate.
  - rewrite lookup_delete_ne by congruence. rewrite Hs2. simpl.
    rewrite lookup_insert_ne by congruence. apply Hfiles.
Qed.

Lemma mkdirs_keeps_dir (dirs : list jsstring) (n n1 : gmap jsstring Node) q :
  mkdirs dirs n = inr n1 -> n !! q = Some Dir -> n1 !! q = Some Dir.
Proof.
  revert n. induction dirs as [|d dirs IH]; intros n; simpl.
  - intros [= ->]. auto.
  - destruct (n !! d) as [[c0|]|] eqn:Hd; [discriminate|apply IH|].
    intros H Hq. apply (IH _ H).
    rewrite lookup_insert_ne; [exact Hq|]. intros ->. congruence.
Qed.

Lemma mkdirs_all_dir (dirs : list jsstring) (n n1 : gmap jsstring Node) :
  mkdirs dirs n = inr n1 -> forall d, In d dirs -> n1 !! d = Some Dir.
Proof.
  revert n. induction dirs as [|d0 dirs IH]; intros n; simpl; [tauto|].
  destruct (n !! d0) as [[c0|]|] eqn:Hd; [discriminate| |].
  - intros H d [<-|Hin]; [|exact (IH _ H d Hin)].
    apply (mkdirs_keeps_dir _ _ _ _ H Hd).
  - intros H d [<-|Hin]; [|exact (IH _ H d Hin)].
    apply (mkdirs_keeps_dir _ _ _ _ H). apply lookup_insert_eq.
Qed.

Lemma mkdirs_id (dirs : list jsstring) (n : gmap jsstring Node) :
  (forall d, In d dirs -> n !! d = Some Dir) -> mkdirs dirs n = inr n.
Proof.
  induction dirs as [|d dirs IH]; intros H; simpl; [reflexivity|].
  rewrite (H d) by (left; reflexivity). apply IH.
  intros d' Hd'. apply H. right. exact Hd'.
Qed.

(** X12. Appending [c1] and then [c2] to the same path leaves the file
    holding its former text followed by [c1] and then [c2]: the second
    call finds the directories and the file of the first, and adds to
    them. *)
Theorem append_twice_concatenates raw c1 c2 p m s s1 h s2 :
  resolveSafePath process_cwd raw = inr p ->
  mkdir_recursive (Path.dirname p) s = (inr tt, s1) ->
  open p FlagA s1 = (inr h, s2) ->
  let w1 := (run (addToFile port process_cwd raw c1) m s).2 in
  let w2 := (run (addToFile port process_cwd raw c2) w1.1 w1.2).2 in
  console w2.1 =
    console m ++ [mkLine OK (ContentAppendedTo p) None;
                  mkLine OK (ContentAppendedTo p) None] /\
  nodes w2.2 !! p = Some (File (content_of (nodes s) p ++ c1 ++ c2)).
Proof.
  intros Hp Hm Ho w1 w2.
  pose proof (content_of_mkdir p _ s s1 h s2 Hm Ho) as Hold.
  destruct (open_append_inv _ _ _ _ Ho) as (-> & Hn2 & _ & _).
  set (old := content_of (nodes s) p) in *.
  assert (Hlook2 : nodes s2 !! p = Some (File old)).
  { rewrite Hn2, Hold. apply lookup_insert_eq. }
  set (s3 := with_nodes s2 (<[p := File (old ++ c1)]> (nodes s2))).
  assert (Hw1 : w1 = (print (mkLine OK (ContentAppendedTo p) None) m, s3)).
  { assert (Hwr : write (Opened p) c1 s2 = (inr tt, s3)).
    { unfold write. rewrite Hlook2. reflexivity. }
    subst w1.
    rewrite (run_addToFile port process_cwd raw c1 p m s s1 (Opened p) s2 s3 s3
               Hp Hm Ho Hwr eq_refl). reflexivity. }
  assert (Hlook3 : nodes s3 !! p = Some (File (old ++ c1))).
  { apply lookup_insert_eq. }
  assert (Hmk : mkdir_recursive (Path.dirname p) s3 = (inr tt, s3)).
  { unfold mkdir_recursive in *.
    destruct (mkdirs _ (nodes s)) as [e|n1] eqn:Hn1; [discriminate|].
    injection Hm as <-.
    rewrite (mkdirs_id _ (nodes s3)); [reflexivity|].
    intros d Hd. pose proof (mkdirs_all_dir _ _ _ Hn1 d Hd) as Hdir.
    simpl in Hn2. unfold s3. simpl. rewrite Hn2.
    assert (d <> p).
    { intros ->. unfold open in Ho. simpl in Ho. rewrite Hdir in Ho.
      discriminate. }
    rewrite !lookup_insert_ne by congruence. exact Hdir. }
  assert (Hop : open p FlagA s3 = (inr (Opened p), s3)).
  { unfold open. rewrite Hlook3. reflexivity. }
  assert (Hwr : write (Opened p) c2 s3
                = (inr tt, with_nodes s3
                             (<[p := File ((old ++ c1) ++ c2)]> (nodes s3)))).
  { unfold write. rewrite Hlook3. reflexivity. }
  subst w2. rewrite Hw1. simpl fst. simpl snd.
  rewrite (run_addToFile port process_cwd raw c2 p _ s3 s3 (Opened p) s3
             _ _ Hp Hmk Hop Hwr eq_refl).
  simpl. split; [rewrite <- app_assoc; reflexivity|].
  rewrite lookup_insert_eq, <- app_assoc. reflexivity.
Qed.

End Sequences.

(* ------------------------------------------------------------------------- *)
(** ** Notifications during a cycle *)

Section Dropped.
Context {FsState Handle : Type}.
Variable port : FsPort FsState Handle.
Variable process_cwd : jsstring.
Variable file : Handle.
Variable utf8_decode : list Byte.byte -> jsstring.

(** X13. While a cycle is in flight, a change notification is dropped:
    the state of the event loop after it is the state before it, so the
    notification is neither run nor kept for later. *)
Theorem notification_during_cycle_is_dropped evs printed s :
  let σ := exec port process_cwd file utf8_decode evs (boot printed s) in
  sys_tasks σ <> [] ->
  step port process_cwd file utf8_decode (Watch true) σ = σ.
Proof.
  intros σ Hbusy.
  pose proof (exec_single_flight port process_cwd file utf8_decode evs
                (boot printed s) (boot_single_flight printed s)) as Hσ.
  fold σ in Hσ. clearbody σ. destruct σ as [m fs tasks unhandled].
  unfold single_flight in Hσ.
  cbn [sys_tasks sys_mem sys_unhandled] in Hσ, Hbusy.
  destruct Hσ as [Hu [[_ Ht]|[Hm _]]]; [congruence|].
  cbn [step sys_mem sys_fs sys_tasks sys_unhandled].
  rewrite advance_onChange, Hm. reflexivity.
Qed.

End Dropped.

(* ------------------------------------------------------------------------- *)
(** ** The further statements at concrete inputs *)

Lemma relative_path_without_dotdot_is_accepted_witness :
  resolveSafePath Demo.cwd (lit " notes/a.txt ")
  = inr (lit "/work/notes/a.txt").
Proof.
  apply (relative_path_without_dotdot_is_accepted Demo.cwd
           (lit " notes/a.txt ")).
  - reflexivity.
  - intros H. apply trim_nil_iff in H. discriminate H.
  - reflexivity.
  - unfold steps_up. vm_compute. intros [H|[H|[]]]; discriminate H.
Defined.

Lemma verb_phrases_exclude_each_other_witness :
  lit "file info" = Commands.FILE_INFO.
Proof.
  apply (verb_phrases_exclude_each_other (lit "file info ./notes.txt")
           (lit "file info") Commands.FILE_INFO).
  - simpl. tauto.
  - simpl. tauto.
  - reflexivity.
  - reflexivity.
Defined.

Lemma malformed_command_is_refused_witness :
  Demo.parse (lit "rename the file ./a.txt ./b.txt") =
  (logger_info (CommandReceived (lit "rename the file ./a.txt ./b.txt"))
   ≫= fun _ => logger_error RenameSyntax None).
Proof.
  apply (malformed_command_is_refused MemFs.port Demo.cwd
           (lit "rename the file ./a.txt ./b.txt") (lit " ./a.txt ./b.txt")).
  - vm_compute. reflexivity.
  - apply indexOf_absent_iff. vm_compute. reflexivity.
Defined.

Lemma unknown_command_lists_the_phrases_witness :
  (run (Demo.parse (lit "hello")) Demo.m0 Demo.two_files).2.2
  = Demo.two_files.
Proof.
  unfold Demo.parse.
  rewrite (unknown_command_lists_the_phrases MemFs.port Demo.cwd
             (lit "hello") Demo.m0 Demo.two_files).
  - reflexivity.
  - vm_compute. discriminate.
  - intros v H. simpl in H.
    repeat (destruct H as [<-|H]; [vm_compute; reflexivity|]). destruct H.
Defined.

Lemma list_without_argument_lists_cwd_witness :
  console (run (Demo.parse (lit "list the directory"))
               Demo.m0 Demo.two_files).2.1
  = [mkLine INFO (CommandReceived (lit "list the directory")) None;
     mkLine OK (ContentsOf (lit "/work")) None;
     mkLine PLAIN Rule None;
     mkLine PLAIN (DirEntry false (lit "a.txt")) None;
     mkLine PLAIN (DirEntry false (lit "b.txt")) None;
     mkLine PLAIN Rule None].
Proof.
  unfold Demo.parse.
  rewrite (list_without_argument_lists_cwd MemFs.port Demo.cwd
             (lit "list the directory") []
             [mkDirent (lit "a.txt") false; mkDirent (lit "b.txt") false]
             Demo.m0 Demo.two_files Demo.two_files).
  - vm_compute. reflexivity.
  - vm_compute. reflexivity.
  - constructor.
  - vm_compute. reflexivity.
Defined.

Lemma refused_path_reaches_no_file_system_call_witness :
  run (createFile MemFs.port Demo.cwd (lit "../x")) Demo.m0 Demo.two_files
  = (inr tt,
     (print (mkLine ERROR (CreateFileFailed (lit "../x"))
               (Some (PathTraversal (lit "../x")))) Demo.m0,
      Demo.two_files)).
Proof.
  apply (refused_path_reaches_no_file_system_call MemFs.port Demo.cwd
           (lit "../x") (PathTraversal (lit "../x")) Demo.m0 Demo.two_files).
  vm_compute. reflexivity.
Defined.

Lemma cycle_without_a_command_witness :
  run Demo.listener Demo.m0 (Demo.watching "")
  = (inr tt, (Demo.m0, Demo.watching "")).
Proof.
  destruct (cycle_without_a_command MemFs.port Demo.cwd MemFs.CommandFile
              MemFs.decode_ascii Demo.m0 (Demo.watching "") eq_refl)
    as [H _].
  apply (H (mkStats false 0 0 0 0) (Demo.watching "")); reflexivity.
Defined.

Lemma create_then_delete_leaves_no_file_witness :
  let w1 := (run (createFile MemFs.port Demo.cwd (lit "notes.txt"))
                 Demo.m0 Demo.empty).2 in
  MemFs.nodes
    (run (deleteFile MemFs.port Demo.cwd (lit "notes.txt")) w1.1 w1.2).2.2
    !! lit "/work/notes.txt" = None.
Proof.
  intros w1.
  destruct (create_then_delete_leaves_no_file Demo.cwd (lit "notes.txt")
              (lit "/work/notes.txt") Demo.m0 Demo.empty
              (MemFs.mkdir_recursive (lit "/work") Demo.empty).2
              (MemFs.Opened (lit "/work/notes.txt"))
              (MemFs.open (lit "/work/notes.txt") FlagW
                 (MemFs.mkdir_recursive (lit "/work") Demo.empty).2).2
              ltac:(vm_compute; reflexivity) ltac:(vm_compute; reflexivity)
              ltac:(vm_compute; reflexivity) ltac:(vm_compute; reflexivity))
    as (_ & H & _).
  exact H.
Defined.

Lemma append_twice_concatenates_witness :
  let w1 := (run (addToFile MemFs.port Demo.cwd (lit "a.txt") (lit "a"))
                 Demo.m0 Demo.empty).2 in
  MemFs.nodes
    (run (addToFile MemFs.port Demo.cwd (lit "a.txt") (lit "b")) w1.1 w1.2).2.2
    !! lit "/work/a.txt" = Some (MemFs.File (lit "ab")).
Proof.
  intros w1.
  destruct (append_twice_concatenates Demo.cwd (lit "a.txt") (lit "a") (lit "b")
              (lit "/work/a.txt") Demo.m0 Demo.empty
              (MemFs.mkdir_recursive (lit "/work") Demo.empty).2
              (MemFs.Opened (lit "/work/a.txt"))
              (MemFs.open (lit "/work/a.txt") FlagA
                 (MemFs.mkdir_recursive (lit "/work") Demo.empty).2).2
              ltac:(vm_compute; reflexivity) ltac:(vm_compute; reflexivity)
              ltac:(vm_compute; reflexivity))
    as (_ & H).
  exact H.
Defined.

Lemma notification_during_cycle_is_dropped_witness :
  let σ := exec MemFs.port Demo.cwd MemFs.CommandFile MemFs.decode_ascii
                [Watch true] (boot [] (Demo.watching "file info a.txt")) in
  step MemFs.port Demo.cwd MemFs.CommandFile MemFs.decode_ascii (Watch true) σ
  = σ.
Proof.
  intros σ.
  apply (notification_during_cycle_is_dropped MemFs.port Demo.cwd
           MemFs.CommandFile MemFs.decode_ascii [Watch true] []
           (Demo.watching "file info a.txt")).
  discriminate.
Defined.

(* ------------------------------------------------------------------------- *)
(** ** Which failures reach the log *)

Section Reporting.
Context {FsState Handle : Type}.
Variable port : FsPort FsState Handle.
Variable process_cwd : jsstring.
Variable file : Handle.
Variable utf8_decode : list Byte.byte -> jsstring.

Ltac answer call :=
  match goal with
  | |- context [call ?s] =>
      let r := fresh "r" in
      let s' := fresh "s" in
      destruct (call s) as [[?|r] s']; simpl
  end.

Ltac answers :=
  repeat
    match goal with
    | |- context [fs_access port ?p ?s] => answer (fs_access port p)
    | |- context [fs_mkdir_recursive port ?p ?s] =>
        answer (fs_mkdir_recursive port p)
    | |- context [fs_open port ?p ?f ?s] => answer (fs_open port p f)
    | |- context [handle_close port ?h ?s] => answer (handle_close port h)
    | |- context [handle_write port ?h ?c ?s] => answer (handle_write port h c)
    | |- context [fs_unlink port ?p ?s] => answer (fs_unlink port p)
    | |- context [fs_rename port ?a ?b ?s] => answer (fs_rename port a b)
    | |- context [fs_readFile port ?p ?s] => answer (fs_readFile port p)
    | |- context [fs_copyFile port ?a ?b ?s] => answer (fs_copyFile port a b)
    | |- context [fs_stat port ?p ?s] => answer (fs_stat port p)
    | |- context [toISOString ?t] => destruct (toISOString t) as [?|?]; simpl
    end.

Ltac told :=
  eexists; split;
  [ unfold print; cbn [console];
    first [ rewrite <- ?app_assoc; reflexivity | symmetry; apply app_nil_r ]
  | let c := fresh "c" in
    let e := fresh "e" in
    let Hin := fresh "Hin" in
    let Hne := fresh "Hne" in
    intros c e Hin Hne; simpl in Hin;
    repeat (destruct Hin as [Hin|Hin]);
    first
      [ solve [destruct Hin]
      | injection Hin as <- <-;
        first
          [ congruence
          | eexists; split; [|simpl; auto 12];
            first [reflexivity | exact I] ] ] ].

Lemma reported_createFile raw :
  failures_reported (eq (CreateFileFailed raw))
    (createFile (traced port) process_cwd raw).
Proof.
  intros m s. unfold createFile, createFile_body, pathExists.
  destruct (resolveSafePath process_cwd raw) as [e|p]; simpl; [told|].
  unfold recorded; simpl. answers; told.
Qed.

Lemma reported_deleteFile raw :
  failures_reported (eq (DeleteFileFailed raw))
    (deleteFile (traced port) process_cwd raw).
Proof.
  intros m s. unfold deleteFile, deleteFile_body, pathExists.
  destruct (resolveSafePath process_cwd raw) as [e|p]; simpl; [told|].
  unfold recorded; simpl. answers; told.
Qed.

Lemma reported_renameFile a b :
  failures_reported (eq (RenameFileFailed a b))
    (renameFile (traced port) process_cwd a b).
Proof.
  intros m s. unfold renameFile, renameFile_body, pathExists.
  destruct (resolveSafePath process_cwd a) as [e|p]; simpl; [told|].
  destruct (resolveSafePath process_cwd b) as [e|q]; simpl; [told|].
  unfold recorded; simpl. answers; told.
Qed.

Lemma reported_addToFile raw content :
  failures_reported (eq (AddToFileFailed raw))
    (addToFile (traced port) process_cwd raw content).
Proof.
  intros m s. unfold addToFile, addToFile_body.
  destruct (resolveSafePath process_cwd raw) as [e|p]; simpl; [told|].
  unfold recorded; simpl. answers; told.
Qed.

Lemma reported_readFile raw :
  failures_reported (eq (ReadFileFailed raw))
    (readFile (traced port) process_cwd raw).
Proof.
  intros m s. unfold readFile, readFile_body, pathExists.
  destruct (resolveSafePath process_cwd raw) as [e|p]; simpl; [told|].
  unfold recorded; simpl. answers; told.
Qed.

Lemma reported_copyFile a b :
  failures_reported (eq (CopyFileFailed a b))
    (copyFile (traced port) process_cwd a b).
Proof.
  intros m s. unfold copyFile, copyFile_body, pathExists.
  destruct (resolveSafePath process_cwd a) as [e|p]; simpl; [told|].
  destruct (resolveSafePath process_cwd b) as [e|q]; simpl; [told|].
  unfold recorded; simpl. answers; told.
Qed.

Lemma reported_fileInfo raw :
  failures_reported (eq (FileInfoFailed raw))
    (fileInfo (traced port) process_cwd raw).
Proof.
  intros m s. unfold fileInfo, fileInfo_body, pathExists.
  destruct (resolveSafePath process_cwd raw) as [e|p]; simpl; [told|].
  unfold recorded; simpl. answers; told.
Qed.

Lemma reported_listDirectory raw :
  failures_reported (eq (ListDirectoryFailed raw))
    (listDirectory (traced port) process_cwd raw).
Proof.
  intros m s. unfold listDirectory, listDirectory_body.
  destruct (resolveSafePath process_cwd _) as [e|dir]; simpl; [told|].
  unfold recorded; simpl.
  destruct (fs_readdir port dir s) as [[e|entries] s']; simpl; [told|].
  destruct entries as [|e es]; simpl; [told|].
  unfold async_bind. rewrite run_try_catch, run_bind, run_print_entries.
  simpl. told.
Qed.

Lemma reported_weaken (ok ok' : Msg -> Prop)
    (t : Async (FsState * list (Call * Err)) unit) :
  (forall msg, ok msg -> ok' msg) ->
  failures_reported ok t -> failures_reported ok' t.
Proof.
  intros Hok H m s. destruct (H m s) as (out & Hc & Hf).
  exists out. split; [exact Hc|].
  intros c e Hin Hne. destruct (Hf c e Hin Hne) as (msg & Hm & Hi). eauto.
Qed.

Lemma reported_after_info (ok : Msg -> Prop) msg
    (t : Async (FsState * list (Call * Err)) unit) :
  failures_reported ok t ->
  failures_reported (fun _ => True)
    (logger_info msg ≫= fun _ => awaited t).
Proof.
  intros H m s. rewrite run_mbind, run_logger_info.
  cbv beta iota. simpl fst. simpl snd. rewrite run_awaited.
  destruct (H (print (mkLine INFO msg None) m) s) as (out & Hc & Hf).
  exists (mkLine INFO msg None :: out). split.
  - rewrite Hc. unfold print. cbn [console]. rewrite <- app_assoc. reflexivity.
  - intros c e Hin Hne. destruct (Hf c e Hin Hne) as (msg' & _ & Hi).
    exists msg'. split; [exact I|]. right. exact Hi.
Qed.

Lemma reported_parseAndExecute raw :
  failures_reported (fun _ => True)
    (parseAndExecute (traced port) process_cwd raw).
Proof.
  unfold parseAndExecute.
  destruct (negb _); [intros m s; simpl; told|].
  repeat match goal with
         | |- context [if ?b then _ else _] => destruct b
         end;
    first
      [ eapply reported_after_info;
        first [ apply reported_createFile | apply reported_deleteFile
              | apply reported_renameFile | apply reported_addToFile
              | apply reported_readFile | apply reported_copyFile
              | apply reported_listDirectory | apply reported_fileInfo ]
      | intros m s; simpl; told ].
Qed.

Lemma reported_onChange :
  failures_reported (fun _ => True)
    (onChange (traced port) process_cwd file utf8_decode).
Proof.
  pose proof (reported_parseAndExecute) as Hrep.
  pose proof (nothrow_parseAndExecute (traced port) process_cwd) as Hnt.
  unfold onChange, onChange_cycle, onChange_body.
  generalize dependent (parseAndExecute (traced port) process_cwd).
  intros pe Hrep Hnt m s. simpl.
  destruct (processing m); simpl; [told|].
  unfold recorded; simpl.
  destruct (handle_stat port file s) as [[e|stats] s1]; simpl; [told|].
  destruct (st_size stats =? 0)%N; simpl; [told|].
  destruct (handle_read port file (st_size stats) s1) as [[e|buffer] s2];
    simpl; [told|].
  destruct (str_eqb _ _); simpl; [told|].
  rewrite run_finally, run_try_catch, run_awaited.
  set (m' := set_lastContent (utf8_decode buffer) (set_processing true m)).
  destruct (Hrep (utf8_decode buffer) m' s2) as (out & Hc & Hf).
  destruct (Hnt (utf8_decode buffer) m' (s2, [])) as ([] & [m2 st2] & Hrun).
  rewrite Hrun in Hc, Hf |- *. simpl in *.
  exists out. split; [exact Hc|exact Hf].
Qed.

(** C3, as the code has it. Whatever the file-system calls do: no command
    function, nor the parser, nor the change listener ends by throwing;
    each command function prints what its body throws as its error line
    with the cause; every call that fails while a command function, the
    parser or the listener runs, the existence check apart, has its error
    as the cause of an error line printed in that run; and in every run
    of the event loop from its start, no rejection is left unhandled. *)
Theorem failures_are_caught_and_logged :
  (forall raw,
      nothrow (createFile port process_cwd raw) /\
      reports (createFile port process_cwd raw)
              (createFile_body port process_cwd raw) (CreateFileFailed raw) /\
      failures_reported (eq (CreateFileFailed raw))
        (createFile (traced port) process_cwd raw)) /\
  (forall raw,
      nothrow (deleteFile port process_cwd raw) /\
      reports (deleteFile port process_cwd raw)
              (deleteFile_body port process_cwd raw) (DeleteFileFailed raw) /\
      failures_reported (eq (DeleteFileFailed raw))
        (deleteFile (traced port) process_cwd raw)) /\
  (forall a b,
      nothrow (renameFile port process_cwd a b) /\
      reports (renameFile port process_cwd a b)
              (renameFile_body port process_cwd a b) (RenameFileFailed a b) /\
      failures_reported (eq (RenameFileFailed a b))
        (renameFile (traced port) process_cwd a b)) /\
  (forall raw c,
      nothrow (addToFile port process_cwd raw c) /\
      reports (addToFile port process_cwd raw c)
              (addToFile_body port process_cwd raw c) (AddToFileFailed raw) /\
      failures_reported (eq (AddToFileFailed raw))
        (addToFile (traced port) process_cwd raw c)) /\
  (forall raw,
      nothrow (readFile port process_cwd raw) /\
      reports (readFile port process_cwd raw)
              (readFile_body port process_cwd raw) (ReadFileFailed raw) /\
      failures_reported (eq (ReadFileFailed raw))
        (readFile (traced port) process_cwd raw)) /\
  (forall a b,
      nothrow (copyFile port process_cwd a b) /\
      reports (copyFile port process_cwd a b)
              (copyFile_body port process_cwd a b) (CopyFileFailed a b) /\
      failures_reported (eq (CopyFileFailed a b))
        (copyFile (traced port) process_cwd a b)) /\
  (forall raw,
      nothrow (listDirectory port process_cwd raw) /\
      reports (listDirectory port process_cwd raw)
              (listDirectory_body port process_cwd raw)
              (ListDirectoryFailed raw) /\
      failures_reported (eq (ListDirectoryFailed raw))
        (listDirectory (traced port) process_cwd raw)) /\
  (forall raw,
      nothrow (fileInfo port process_cwd raw) /\
      reports (fileInfo port process_cwd raw)
              (fileInfo_body port process_cwd raw) (FileInfoFailed raw) /\
      failures_reported (eq (FileInfoFailed raw))
        (fileInfo (traced port) process_cwd raw)) /\
  (forall raw,
      nothrow (parseAndExecute port process_cwd raw) /\
      failures_reported (fun _ => True)
        (parseAndExecute (traced port) process_cwd raw)) /\
  nothrow (onChange port process_cwd file utf8_decode) /\
  failures_reported (fun msg => True)
    (onChange (traced port) process_cwd file utf8_decode) /\
  (forall m s e s1,
      processing m = false ->
      handle_stat port file s = (inl e, s1) ->
      run (onChange port process_cwd file utf8_decode) m s =
      (inr tt, (print (mkLine ERROR UnexpectedError (Some e)) m, s1))) /\
  (forall evs printed s,
      sys_unhandled
        (exec port process_cwd file utf8_decode evs (boot printed s)) = []).
Proof.
  repeat split;
    try apply reports_try_catch;
    auto using nothrow_createFile, nothrow_deleteFile, nothrow_renameFile,
      nothrow_addToFile, nothrow_readFile, nothrow_copyFile,
      nothrow_listDirectory, nothrow_fileInfo, nothrow_parseAndExecute,
      nothrow_onChange, reported_createFile, reported_deleteFile,
      reported_renameFile, reported_addToFile, reported_readFile,
      reported_copyFile, reported_listDirectory, reported_fileInfo,
      reported_parseAndExecute, reported_onChange.
  - intros m s e s1 Hm Hs. destruct m as [pr lc printed]. simpl in Hm.
    subst pr. unfold onChange, onChange_cycle, onChange_body. simpl.
    rewrite Hs. reflexivity.
  - intros evs printed s.
    apply (exec_single_flight port process_cwd file utf8_decode evs
             (boot printed s) (boot_single_flight printed s)).
Qed.

End Reporting.

(** C3, as stated, fails: the existence check of [deleteFile] fails with
    a permission error on a file that is there, and the run prints the
    not-found warning, with no cause, and no error line. *)
Lemma access_failure_is_not_reported :
  let p := lit "/work/secret.txt" in
  let w := (run (deleteFile (traced MemFs.port) Demo.cwd (lit "secret.txt"))
                Demo.m0 (Demo.locked, [])).2 in
  MemFs.nodes Demo.locked !! p = Some (MemFs.File (lit "s")) /\
  w.2.2 = [(CAccess, MemFs.EACCES)] /\
  console w.1 = [mkLine WARN (FileNotFoundCannotDelete p) None].
Proof. repeat split; vm_compute; reflexivity. Qed.

Lemma failures_are_caught_and_logged_witness :
  run (onChange MemFs.port Demo.cwd (MemFs.Opened (lit "/work/gone.txt"))
               MemFs.decode_ascii) Demo.m0 Demo.empty
  = (inr tt,
     (print (mkLine ERROR UnexpectedError (Some MemFs.EBADF)) Demo.m0,
      Demo.empty)).
Proof.
  pose proof (failures_are_caught_and_logged MemFs.port Demo.cwd
                (MemFs.Opened (lit "/work/gone.txt")) MemFs.decode_ascii)
    as H.
  destruct H as (_ & _ & _ & _ & _ & _ & _ & _ & _ & _ & _ & H & _).
  apply (H Demo.m0 Demo.empty MemFs.EBADF Demo.empty); reflexivity.
Defined.

